(** * bra3n: the Notion import handler and the summary text formatter

    A shallow embedding of two Supabase edge functions of the repository:

    - [summarize-text] (src/unnamed/part_000): the regex chain
      [formatSummaryText];
    - [notion-import-page] (src/unnamed/part_001): request validation, the
      project access check, title resolution, the block-to-text converter
      and the note insert.

    JavaScript strings are sequences of UTF-16 code units; they are modelled
    as lists of code units so that [length], [substring], [trim] and the
    regular expressions (which have no [u] flag) work on the same units as
    the source.

    The [try] block of the import handler is embedded statement by
    statement, each statement with the variables it reads as parameters.
    The block as a whole declares [processBlocks] twice and [content]
    twice; the section on the module as written embeds its declarations
    and the rule that rejects such a block when the module is loaded. *)

From Stdlib Require Import List NArith Bool String Ascii Arith Lia.
Import ListNotations.

Set Implicit Arguments.

(* ================================================================== *)
(** ** JavaScript strings *)

Definition cu := N.
Definition jsstr := list cu.

(** An ASCII literal as a JavaScript string. *)
Definition str (s : string) : jsstr :=
  map N_of_ascii (list_ascii_of_string s).
Arguments str s%_string.

Definition nl : cu := 10%N.
Definition space : cu := 32%N.
Definition hash : cu := 35%N.
Definition star : cu := 42%N.
Definition dash : cu := 45%N.
(** U+2022 BULLET *)
Definition bullet : cu := 8226%N.

Definition cu_eqb (a b : cu) : bool := N.eqb a b.

Fixpoint jsstr_eqb (a b : jsstr) : bool :=
  match a, b with
  | [], [] => true
  | x :: a', y :: b' => cu_eqb x y && jsstr_eqb a' b'
  | _, _ => false
  end.

(** ECMAScript LineTerminator: LF, CR, LS, PS. *)
Definition is_line_terminator (c : cu) : bool :=
  (c =? 10)%N || (c =? 13)%N || (c =? 8232)%N || (c =? 8233)%N.

(** ECMAScript WhiteSpace: TAB, VT, FF, SP, NBSP, ZWNBSP and category Zs. *)
Definition is_white_space (c : cu) : bool :=
  (c =? 9)%N || (c =? 11)%N || (c =? 12)%N || (c =? 32)%N || (c =? 160)%N
  || (c =? 5760)%N || ((8192 <=? c)%N && (c <=? 8202)%N)
  || (c =? 8239)%N || (c =? 8287)%N || (c =? 12288)%N || (c =? 65279)%N.

(** The class [\s], also the set stripped by [String.prototype.trim]. *)
Definition is_space (c : cu) : bool :=
  is_white_space c || is_line_terminator c.

Fixpoint trimStart (s : jsstr) : jsstr :=
  match s with
  | c :: s' => if is_space c then trimStart s' else s
  | [] => []
  end.

Fixpoint trimEnd (s : jsstr) : jsstr :=
  match s with
  | c :: s' =>
      match trimEnd s' with
      | [] => if is_space c then [] else [c]
      | t => c :: t
      end
  | [] => []
  end.

Definition trim (s : jsstr) : jsstr := trimEnd (trimStart s).

(** [s.substring(0, n)] *)
Definition substring0 (n : nat) (s : jsstr) : jsstr := firstn n s.

(** [arr.join('')] on an array of strings *)
Definition join (l : list jsstr) : jsstr := List.concat l.

(** [s.includes(sub)] *)
Fixpoint starts_with (sub s : jsstr) : bool :=
  match sub, s with
  | [], _ => true
  | x :: sub', y :: s' => cu_eqb x y && starts_with sub' s'
  | _ :: _, [] => false
  end.

Fixpoint includes (sub s : jsstr) : bool :=
  starts_with sub s ||
  match s with
  | _ :: s' => includes sub s'
  | [] => false
  end.

(** [' '.repeat(n)] style repetition *)
Fixpoint repeat_str (s : jsstr) (n : nat) : jsstr :=
  match n with
  | O => []
  | S n' => s ++ repeat_str s n'
  end.

(* ================================================================== *)
(** ** Regular expressions

    A backtracking matcher for the fragment of ECMAScript regular
    expressions that [formatSummaryText] uses: character classes, greedy
    bounded repetition of a class, concatenation, capturing groups, the
    [^] assertion under the [m] flag and negative lookahead. *)

Module Regex.

Inductive regex :=
| Cls (p : cu -> bool)                          (* one unit of a class *)
| Bol                                           (* ^ with the m flag *)
| Cat (r1 r2 : regex)
| Rep (p : cu -> bool) (lo : nat) (hi : option nat)  (* class{lo,hi}, greedy *)
| Cap (i : nat) (r : regex)                     (* capturing group number i *)
| NotAhead (r : regex).                         (* (?!r) *)

Definition captures := list (nat * jsstr).

(** A continuation receives the unit before the current position, the rest
    of the input, the number of units consumed and the captures. *)
Definition cont :=
  option cu -> jsstr -> nat -> captures -> option (nat * captures).

Definition accept : cont := fun _ _ pos caps => Some (pos, caps).

Definition may_repeat (hi : option nat) : bool :=
  match hi with
  | Some O => false
  | _ => true
  end.

Fixpoint rep (p : cu -> bool) (lo : nat) (hi : option nat)
    (prev : option cu) (s : jsstr) (pos : nat) (caps : captures) (k : cont)
    {struct s} : option (nat * captures) :=
  let stop := match lo with O => k prev s pos caps | S _ => None end in
  match s with
  | c :: s' =>
      if p c && may_repeat hi then
        match rep p (pred lo) (option_map pred hi) (Some c) s' (S pos) caps k with
        | Some res => Some res
        | None => stop
        end
      else stop
  | [] => stop
  end.

Fixpoint run (r : regex) (prev : option cu) (s : jsstr) (pos : nat)
    (caps : captures) (k : cont) {struct r} : option (nat * captures) :=
  match r with
  | Cls p =>
      match s with
      | c :: s' => if p c then k (Some c) s' (S pos) caps else None
      | [] => None
      end
  | Bol =>
      match prev with
      | None => k prev s pos caps
      | Some c => if is_line_terminator c then k prev s pos caps else None
      end
  | Cat r1 r2 =>
      run r1 prev s pos caps
        (fun prev' s' pos' caps' => run r2 prev' s' pos' caps' k)
  | Rep p lo hi => rep p lo hi prev s pos caps k
  | Cap i r1 =>
      run r1 prev s pos caps
        (fun prev' s' pos' caps' =>
           k prev' s' pos' ((i, firstn (pos' - pos) s) :: caps'))
  | NotAhead r1 =>
      match run r1 prev s pos caps accept with
      | Some _ => None
      | None => k prev s pos caps
      end
  end.

(** One match attempt at the current position: the length of the match and
    its captures. *)
Definition exec (r : regex) (prev : option cu) (s : jsstr)
  : option (nat * captures) :=
  run r prev s 0 [] accept.

(** Replacement patterns: literal text and [$n] references. *)
Inductive piece :=
| Lit (s : jsstr)
| Ref (i : nat).

Fixpoint capture (i : nat) (caps : captures) : jsstr :=
  match caps with
  | (j, v) :: caps' => if Nat.eqb i j then v else capture i caps'
  | [] => []
  end.

Fixpoint expand (t : list piece) (caps : captures) : jsstr :=
  match t with
  | Lit s :: t' => s ++ expand t' caps
  | Ref i :: t' => capture i caps ++ expand t' caps
  | [] => []
  end.

(** [s.replace(/r/g, t)]: matches are searched left to right, each search
    starts where the previous match ended (one unit further after an empty
    match), and [^] looks at the unit before the position in the original
    string.  [skip] counts the units of the current match still to drop. *)
Fixpoint replace_from (r : regex) (t : list piece) (prev : option cu)
    (skip : nat) (s : jsstr) {struct s} : jsstr :=
  match s with
  | [] =>
      match skip with
      | O => match exec r prev [] with
             | Some (_, caps) => expand t caps
             | None => []
             end
      | S _ => []
      end
  | c :: s' =>
      match skip with
      | S n => replace_from r t (Some c) n s'
      | O =>
          match exec r prev s with
          | Some (O, caps) => expand t caps ++ c :: replace_from r t (Some c) 0 s'
          | Some (S n, caps) => expand t caps ++ replace_from r t (Some c) n s'
          | None => c :: replace_from r t (Some c) 0 s'
          end
      end
  end.

Definition replace_all (r : regex) (t : list piece) (s : jsstr) : jsstr :=
  replace_from r t None 0 s.

End Regex.

Import Regex.

(* ================================================================== *)
(** ** summarize-text: [formatSummaryText] *)

Definition is_nl (c : cu) : bool := cu_eqb c nl.
Definition not_nl (c : cu) : bool := negb (is_nl c).
Definition is_hash (c : cu) : bool := cu_eqb c hash.

(** [[-*•]] *)
Definition is_marker (c : cu) : bool :=
  cu_eqb c dash || cu_eqb c star || cu_eqb c bullet.

(** [[^#\s•-]] *)
Definition is_para_start (c : cu) : bool :=
  negb (cu_eqb c hash || is_space c || cu_eqb c bullet || cu_eqb c dash).

(** [#{1,6}\s] *)
Definition re_heading_marker : regex :=
  Cat (Rep is_hash 1 (Some 6)) (Cls is_space).

(** [/\n{3,}/g] *)
Definition re_newlines : regex := Rep is_nl 3 None.

(** [/^([-*•])\s*/gm] *)
Definition re_bullet : regex :=
  Cat Bol (Cat (Cap 1 (Cls is_marker)) (Rep is_space 0 None)).

(** [/([^\n])\n(#{1,6}\s)/g] *)
Definition re_before_heading : regex :=
  Cat (Cap 1 (Cls not_nl)) (Cat (Cls is_nl) (Cap 2 re_heading_marker)).

(** [/^(#{1,6}\s[^\n]+)(?!\n\n)/gm] *)
Definition re_after_heading : regex :=
  Cat Bol
    (Cat (Cap 1 (Cat re_heading_marker (Rep not_nl 1 None)))
         (NotAhead (Cat (Cls is_nl) (Cls is_nl)))).

(** [/([^\n])\n([^#\s•-])/g] *)
Definition re_paragraph : regex :=
  Cat (Cap 1 (Cls not_nl)) (Cat (Cls is_nl) (Cap 2 (Cls is_para_start))).

(** [/\s{2,}/g] *)
Definition re_spaces : regex := Rep is_space 2 None.

Definition collapse_newlines : jsstr -> jsstr :=
  replace_all re_newlines [Lit [nl; nl]].
Definition normalize_bullets : jsstr -> jsstr :=
  replace_all re_bullet [Lit [bullet; space]].
Definition space_before_heading : jsstr -> jsstr :=
  replace_all re_before_heading [Ref 1; Lit [nl; nl]; Ref 2].
Definition space_after_heading : jsstr -> jsstr :=
  replace_all re_after_heading [Ref 1; Lit [nl; nl]].
Definition space_paragraphs : jsstr -> jsstr :=
  replace_all re_paragraph [Ref 1; Lit [nl; nl]; Ref 2].
Definition collapse_spaces : jsstr -> jsstr :=
  replace_all re_spaces [Lit [space]].

Definition formatSummaryText (text : jsstr) : jsstr :=
  match text with
  | [] => []
  | _ =>
      let text := collapse_newlines text in
      let text := normalize_bullets text in
      let text := space_before_heading text in
      let text := space_after_heading text in
      let text := space_paragraphs text in
      let text := collapse_spaces text in
      trim text
  end.

(* ================================================================== *)
(** ** notion-import-page: data *)

(** [x || d] on a possibly absent string: the empty string is falsy. *)
Definition or_else (x : option jsstr) (d : jsstr) : jsstr :=
  match x with
  | Some (c :: s) => c :: s
  | _ => d
  end.

Definition truthy (x : option jsstr) : bool :=
  match x with
  | Some (_ :: _) => true
  | _ => false
  end.

Definition is_empty (s : jsstr) : bool :=
  match s with
  | [] => true
  | _ :: _ => false
  end.

(** A rich-text run; only [plain_text] is read. *)
Record RichText := { plain_text : jsstr }.

(** [rich_text.map(t => t.plain_text).join('')] *)
Definition text_of (rich_text : list RichText) : jsstr :=
  join (map plain_text rich_text).

(** [rich_text?.[0]?.plain_text] *)
Definition first_plain_text (rich_text : list RichText) : option jsstr :=
  match rich_text with
  | t :: _ => Some (plain_text t)
  | [] => None
  end.

(** The object stored under the key named by the block's type, that is
    [block[block.type]].  An absent [rich_text] is the empty list: the
    source only tests it with [x && x.length > 0] and [x?.[0]]. *)
Record Payload := {
  rich_text : list RichText;
  checked : bool;                 (* to_do *)
  title : option jsstr;           (* child_page *)
  language : option jsstr;        (* code *)
  icon_emoji : option jsstr       (* callout: icon?.emoji *)
}.

Record Block := {
  id : jsstr;
  type : jsstr;
  has_children : bool;
  payload : Payload
}.

(** A page property; an absent or non-array [title] is the empty list. *)
Record Property := {
  prop_type : jsstr;
  prop_title : list RichText
}.

(** [pageData]: [properties] keeps the insertion order of its keys, which
    is the order [for ... in] visits them. *)
Record Page := {
  properties : option (list (jsstr * Property));
  url : option jsstr
}.

Record SourceDocument := {
  sd_type : jsstr;
  sd_url : option jsstr;
  sd_name : jsstr;
  sd_id : jsstr
}.

Record Note := {
  note_title : jsstr;
  content : jsstr;
  project_id : jsstr;
  user_id : jsstr;
  tags : list jsstr;
  source_document : SourceDocument
}.

(** The row the store returns for an insert. *)
Record NoteRow := {
  row_id : jsstr;
  row : Note
}.

(* ================================================================== *)
(** ** Title resolution (lines 93-151) *)

Fixpoint get_property (key : jsstr) (props : list (jsstr * Property))
  : option Property :=
  match props with
  | (k, p) :: props' => if jsstr_eqb k key then Some p else get_property key props'
  | [] => None
  end.

(** [properties.<key>.title] when it is a non-empty array *)
Definition titled (key : string) (pageData : Page) : option (list RichText) :=
  match properties pageData with
  | Some props =>
      match get_property (str key) props with
      | Some p =>
          match prop_title p with
          | [] => None
          | t => Some t
          end
      | None => None
      end
  | None => None
  end.

(** The [for (const propKey in pageData.properties)] loop *)
Fixpoint first_title_property (props : list (jsstr * Property)) : jsstr :=
  match props with
  | (_, prop) :: props' =>
      if jsstr_eqb (prop_type prop) (str "title")
         && negb (Nat.eqb (List.length (prop_title prop)) 0)
      then text_of (prop_title prop)
      else first_title_property props'
  | [] => []
  end.

(** The value of [pageTitle] at line 129 *)
Definition propertyTitle (pageData : Page) : jsstr :=
  match titled "title" pageData with
  | Some t => text_of t
  | None =>
      match titled "Name" pageData with
      | Some t => text_of t
      | None =>
          match properties pageData with
          | Some props => first_title_property props
          | None => []
          end
      end
  end.

Definition type_is (block : Block) (t : string) : bool :=
  jsstr_eqb (type block) (str t).

Definition ellipsis40 (pageTitle : jsstr) : jsstr :=
  if 40 <? List.length pageTitle then substring0 40 pageTitle ++ str "..."
  else pageTitle.

(** The [for (const block of blocksData.results || [])] loop *)
Fixpoint contentTitle (blocks : list Block) : jsstr :=
  match blocks with
  | block :: rest =>
      if type_is block "heading_1"
         && truthy (first_plain_text (rich_text (payload block)))
      then text_of (rich_text (payload block))
      else if type_is block "paragraph"
              && truthy (first_plain_text (rich_text (payload block)))
      then ellipsis40 (text_of (rich_text (payload block)))
      else contentTitle rest
  | [] => []
  end.

(** [today] is the value of [new Date().toLocaleDateString()]. *)
Definition fallbackTitle (today : jsstr) : jsstr :=
  str "Notion Page (" ++ today ++ str ")".

Definition resolveTitle (pageData : Page) (blocks : list Block)
    (today : jsstr) : jsstr :=
  let pageTitle := propertyTitle pageData in
  if is_empty pageTitle then
    let pageTitle := contentTitle blocks in
    if is_empty pageTitle then fallbackTitle today else pageTitle
  else pageTitle.

(* ================================================================== *)
(** ** The block converter (lines 192-268) *)

Definition has_text (block : Block) : bool :=
  negb (Nat.eqb (List.length (rich_text (payload block))) 0).

Definition block_text (block : Block) : jsstr :=
  text_of (rich_text (payload block)).

Definition backticks : jsstr := [96; 96; 96]%N.

Definition processBlock (block : Block) (level : nat) : jsstr :=
  let indent := repeat_str (str "  ") level in
  if type_is block "paragraph" then
    if has_text block then indent ++ block_text block ++ [nl; nl]
    else indent ++ [nl; nl]
  else if type_is block "heading_1" then
    if has_text block then indent ++ str "# " ++ block_text block ++ [nl; nl]
    else []
  else if type_is block "heading_2" then
    if has_text block then indent ++ str "## " ++ block_text block ++ [nl; nl]
    else []
  else if type_is block "heading_3" then
    if has_text block then indent ++ str "### " ++ block_text block ++ [nl; nl]
    else []
  else if type_is block "bulleted_list_item" then
    if has_text block then indent ++ str "- " ++ block_text block ++ [nl]
    else []
  else if type_is block "numbered_list_item" then
    if has_text block then indent ++ str "1. " ++ block_text block ++ [nl]
    else []
  else if type_is block "to_do" then
    if has_text block then
      let checkbox := if checked (payload block) then str "[x]" else str "[ ]" in
      indent ++ str "- " ++ checkbox ++ str " " ++ block_text block ++ [nl]
    else []
  else if type_is block "toggle" then
    if has_text block then
      indent ++ str "**Toggle: " ++ block_text block ++ str "**" ++ [nl; nl]
    else []
  else if type_is block "child_page" then
    indent ++ str "**Child Page: "
      ++ or_else (title (payload block)) (str "Untitled") ++ str "**" ++ [nl; nl]
  else if type_is block "quote" then
    if has_text block then indent ++ str "> " ++ block_text block ++ [nl; nl]
    else []
  else if type_is block "code" then
    if has_text block then
      indent ++ backticks ++ or_else (language (payload block)) [] ++ [nl]
        ++ block_text block ++ [nl] ++ backticks ++ [nl; nl]
    else []
  else if type_is block "divider" then
    indent ++ str "---" ++ [nl; nl]
  else if type_is block "callout" then
    if has_text block then
      let emoji :=
        if truthy (icon_emoji (payload block))
        then or_else (icon_emoji (payload block)) [] ++ str " "
        else [] in
      indent ++ str "> " ++ emoji ++ str "**Callout:** " ++ block_text block
        ++ [nl; nl]
    else []
  else if type_is block "table" then
    indent ++ str "[Table content not fully supported]" ++ [nl; nl]
  else if type_is block "column_list" then
    indent ++ str "[Column layout not fully supported]" ++ [nl; nl]
  else
    indent ++ str "[" ++ type block ++ str " block type not supported]" ++ [nl; nl].

(* ================================================================== *)
(** ** Effects of the handler

    The handler talks to the database and to the Notion API.  A computation
    takes the trace of calls made so far and returns its outcome with the
    extended trace; an exception leaves the trace as it was when thrown. *)

Record DbResult (A : Type) := {
  data : option A;
  error : option jsstr
}.

(** What [await fetch(...)] followed by reading the body can do: reject,
    answer with a non-2xx status (and the [message] of its JSON body), or
    answer with [ok] and a body. *)
Inductive Fetched (A : Type) :=
| NetworkError (message : jsstr)
| HttpError (message : option jsstr)
| HttpOk (body : A).
Arguments NetworkError {A} message.
Arguments HttpError {A} message.
Arguments HttpOk {A} body.

Record World := {
  is_project_member : jsstr -> jsstr -> DbResult bool;
  project_owner : jsstr -> DbResult jsstr;
  notion_connection : jsstr -> DbResult jsstr;
  notion_page : jsstr -> jsstr -> Fetched Page;
  notion_blocks : jsstr -> jsstr -> Fetched (list Block);
  notion_children : jsstr -> jsstr -> Fetched (list Block);
  insert_note : Note -> DbResult NoteRow;
  today : jsstr
}.

Inductive Effect :=
| RpcIsProjectMember (project user : jsstr)
| SelectProjectOwner (project : jsstr)
| SelectNotionConnection (user : jsstr)
| GetPage (page : jsstr)
| GetPageBlocks (page : jsstr)
| GetBlockChildren (block : jsstr)
| InsertNote (note : Note).

Inductive Outcome (A : Type) :=
| Value (a : A)
| Thrown (message : jsstr)
| Diverged.
Arguments Value {A} a.
Arguments Thrown {A} message.
Arguments Diverged {A}.

Definition M (A : Type) := list Effect -> Outcome A * list Effect.

Definition ret {A} (a : A) : M A := fun tr => (Value a, tr).

Definition bind {A B} (m : M A) (f : A -> M B) : M B :=
  fun tr =>
    match m tr with
    | (Value a, tr') => f a tr'
    | (Thrown e, tr') => (Thrown e, tr')
    | (Diverged, tr') => (Diverged, tr')
    end.

Definition throw {A} (message : jsstr) : M A := fun tr => (Thrown message, tr).

Definition diverge {A} : M A := fun tr => (Diverged, tr).

Definition perform (e : Effect) : M unit := fun tr => (Value tt, tr ++ [e]).

(** [try { m } catch (err) { h err }] *)
Definition try_catch {A} (m : M A) (h : jsstr -> M A) : M A :=
  fun tr =>
    match m tr with
    | (Thrown e, tr') => h e tr'
    | r => r
    end.

Notation "x <- m ;; k" := (bind m (fun x => k))
  (at level 61, m at next level, right associativity).
Notation "m ;;; k" := (bind m (fun _ => k))
  (at level 61, right associativity).

(* ================================================================== *)
(** ** Recursive conversion (lines 159-190, declared again at 271-302) *)

Definition placeholder : jsstr :=
  [nl; nl] ++ str "*[Error loading nested content]*" ++ [nl; nl].

(** [fetch(.../blocks/${block.id}/children)] and, when [ok], [json()]:
    [None] stands for a response that is not [ok]. *)
Definition fetchChildren (w : World) (accessToken : jsstr) (block : Block)
  : M (option (list Block)) :=
  perform (GetBlockChildren (id block)) ;;;
  match notion_children w accessToken (id block) with
  | NetworkError message => throw message
  | HttpError _ => ret None
  | HttpOk results => ret (Some results)
  end.

(** The [for (const block of blocks)] loop of [processBlocks]; [nested]
    is the recursive call [processBlocks(childrenData.results, level + 1)]
    and [blockContent] the text accumulated so far. *)
Fixpoint each_block (nested : list Block -> M jsstr) (w : World)
    (accessToken : jsstr) (level : nat) (blocks : list Block)
    (blockContent : jsstr) {struct blocks} : M jsstr :=
  match blocks with
  | [] => ret blockContent
  | block :: rest =>
      let blockContent := blockContent ++ processBlock block level in
      if has_children block then
        blockContent <-
          try_catch
            (children <- fetchChildren w accessToken block ;;
             match children with
             | Some results =>
                 more <- nested results ;;
                 ret (blockContent ++ more)
             | None => ret blockContent
             end)
            (fun err => ret (blockContent ++ placeholder)) ;;
        each_block nested w accessToken level rest blockContent
      else each_block nested w accessToken level rest blockContent
  end.

(** [fuel] bounds the nesting depth that is followed; the source has no
    bound and does not return on an endless chain of children. *)
Fixpoint processBlocks (fuel : nat) (w : World) (accessToken : jsstr)
    (blocks : list Block) (level : nat) {struct fuel} : M jsstr :=
  match fuel with
  | O => diverge
  | S fuel' =>
      each_block
        (fun results => processBlocks fuel' w accessToken results (S level))
        w accessToken level blocks []
  end.

(* ================================================================== *)
(** ** The statements of the request handler (lines 9-357) *)

Record RequestBody := {
  userId : option jsstr;
  pageId : option jsstr;
  projectId : option jsstr
}.

(** What [await req.json()] does: reject, or give the request object. *)
Inductive Parsed :=
| BadJson (message : jsstr)
| Json (params : RequestBody).

Record Request := {
  method : jsstr;
  json : Parsed
}.

Inductive ResponseBody :=
| NoBody
| SuccessBody (note : option NoteRow) (message : jsstr)
| FailureBody (error : jsstr).

Record Response := {
  status : nat;
  response_body : ResponseBody
}.

Definition is_true (x : option bool) : bool :=
  match x with
  | Some true => true
  | _ => false
  end.

Definition is_some {A} (x : option A) : bool :=
  match x with
  | Some _ => true
  | None => false
  end.

(** [projectOwner?.owner_id !== userId] *)
Definition owner_differs (owner : option jsstr) (userId : jsstr) : bool :=
  match owner with
  | Some o => negb (jsstr_eqb o userId)
  | None => true
  end.

Definition missing_parameters : jsstr :=
  str "Missing required parameters: userId, pageId, and projectId".

Definition no_access : jsstr := str "You don't have access to this project".





(** Lines 16-20: the request object and its three parameters. *)
Definition required_parameters (req : Request) : M (jsstr * jsstr * jsstr) :=
  match json req with
  | BadJson message => throw message
  | Json params =>
      if negb (truthy (userId params) && truthy (pageId params)
               && truthy (projectId params))
      then throw missing_parameters
      else ret (or_else (userId params) [], or_else (pageId params) [],
                or_else (projectId params) [])
  end.

(** Lines 27-41: the membership query, the owner query and the access
    check. *)
Definition verify_access (w : World) (userId projectId : jsstr) : M unit :=
  perform (RpcIsProjectMember projectId userId) ;;;
  let projectAccess := is_project_member w projectId userId in
  perform (SelectProjectOwner projectId) ;;;
  let projectOwner := project_owner w projectId in
  if (is_some (error projectAccess) && is_some (error projectOwner))
     || (negb (is_true (data projectAccess))
         && owner_differs (data projectOwner) userId)
  then throw no_access
  else ret tt.





(** Lines 343-356: the [catch] block, for an error with [message]. *)
Definition failure_response (message : jsstr) : Response :=
  {| status := 400;
     response_body :=
       FailureBody (or_else (Some message) (str "Unknown error occurred")) |}.

(* ================================================================== *)
(** ** The module as written (part_001)

    The statements above stand in one block, the [try] block of the
    handler (lines 15-343).  A block of module code binds a name at most
    once: it is a syntax error if the lexically declared names of its
    statement list contain a duplicate, and a function declared in a block
    is such a name (ECMAScript, static semantics of Block).  A syntax
    error is found before the module runs: none of its statements is
    executed, [serve] is not called and no handler is registered. *)

Inductive Binder := ConstBinding | LetBinding | AsyncFunctionBinding.

Record Declaration := {
  binder : Binder;
  bound_name : string;
  at_line : nat
}.

(** The lexical declarations of the [try] block, in source order.  The
    declarations inside the nested [if] and [for] blocks and inside the
    functions belong to scopes of their own. *)
Definition try_block : list Declaration :=
  [ {| binder := ConstBinding; bound_name := "userId"; at_line := 16 |};
    {| binder := ConstBinding; bound_name := "pageId"; at_line := 16 |};
    {| binder := ConstBinding; bound_name := "projectId"; at_line := 16 |};
    {| binder := ConstBinding; bound_name := "supabaseUrl"; at_line := 23 |};
    {| binder := ConstBinding; bound_name := "supabaseKey"; at_line := 24 |};
    {| binder := ConstBinding; bound_name := "supabase"; at_line := 25 |};
    {| binder := ConstBinding; bound_name := "projectAccess"; at_line := 28 |};
    {| binder := ConstBinding; bound_name := "projectError"; at_line := 28 |};
    {| binder := ConstBinding; bound_name := "projectOwner"; at_line := 33 |};
    {| binder := ConstBinding; bound_name := "ownerError"; at_line := 33 |};
    {| binder := ConstBinding; bound_name := "connectionData"; at_line := 44 |};
    {| binder := ConstBinding; bound_name := "connectionError"; at_line := 44 |};
    {| binder := ConstBinding; bound_name := "accessToken"; at_line := 55 |};
    {| binder := ConstBinding; bound_name := "pageResponse"; at_line := 58 |};
    {| binder := ConstBinding; bound_name := "pageData"; at_line := 73 |};
    {| binder := ConstBinding; bound_name := "blockResponse"; at_line := 76 |};
    {| binder := ConstBinding; bound_name := "blocksData"; at_line := 91 |};
    {| binder := LetBinding; bound_name := "pageTitle"; at_line := 95 |};
    {| binder := LetBinding; bound_name := "content"; at_line := 156 |};
    {| binder := AsyncFunctionBinding; bound_name := "processBlocks";
       at_line := 159 |};
    {| binder := AsyncFunctionBinding; bound_name := "processBlock";
       at_line := 193 |};
    {| binder := AsyncFunctionBinding; bound_name := "processBlocks";
       at_line := 271 |};
    {| binder := LetBinding; bound_name := "content"; at_line := 305 |};
    {| binder := ConstBinding; bound_name := "noteData"; at_line := 308 |};
    {| binder := ConstBinding; bound_name := "noteError"; at_line := 308 |}
  ]%string.

(** The declarations of [block] whose name is bound by an earlier
    declaration of the block or is in [seen]. *)
Fixpoint redeclared (seen : list string) (block : list Declaration)
  : list Declaration :=
  match block with
  | [] => []
  | d :: rest =>
      if existsb (String.eqb (bound_name d)) seen
      then d :: redeclared seen rest
      else redeclared (bound_name d :: seen) rest
  end.

(** A handler: the function passed to [serve] at line 9. *)
Definition Handler := Request -> Outcome Response * list Effect.

(** What loading the module leads to. *)
Inductive Deployment :=
| SyntaxError (again : list Declaration)
| Serving (handler : Handler).

(** Loading a module whose handler has a [try] block with the
    declarations [block]. *)
Definition load (block : list Declaration) (handler : Handler) : Deployment :=
  match redeclared [] block with
  | [] => Serving handler
  | again => SyntaxError again
  end.

(** What a request gets from the module: the handler's answer, or nothing
    from this code when no handler is registered. *)
Definition respond (d : Deployment) (req : Request)
  : option (Outcome Response * list Effect) :=
  match d with
  | Serving handler => Some (handler req)
  | SyntaxError _ => None
  end.
(* ================================================================== *)
(** * Specification-side definitions and sample inputs *)

Definition indent_of (level : nat) : jsstr := repeat_str (str "  ") level.

Definition mk_payload (rt : list RichText) : Payload :=
  {| rich_text := rt; checked := false; title := None; language := None;
     icon_emoji := None |}.

Definition mk_block (ty : string) (text : string) : Block :=
  {| id := str ty; type := str ty; has_children := false;
     payload := mk_payload [ {| plain_text := str text |} ] |}.

(** The kinds whose [case] returns a fragment only under
    [rich_text.length > 0] and otherwise reaches [return ''] at line 267. *)
Definition text_kinds : list string :=
  ["heading_1"; "heading_2"; "heading_3"; "bulleted_list_item";
   "numbered_list_item"; "to_do"; "toggle"; "quote"; "code"; "callout"]%string.

Definition untitled_child : Block :=
  {| id := str "b1"; type := str "child_page"; has_children := false;
     payload := {| rich_text := []; checked := false; title := Some [];
                   language := None; icon_emoji := None |} |}.

(** The statement of C8 as the specification words it: every [to_do]
    block, whatever its rich text. *)
Definition to_do_always_shows_checkbox : Prop :=
  forall (block : Block) (level : nat),
    type block = str "to_do" ->
    (checked (payload block) = true ->
     includes (str "[x]") (processBlock block level) = true)
    /\ (checked (payload block) = false ->
        includes (str "[ ]") (processBlock block level) = true).

Definition empty_to_do : Block :=
  {| id := str "b2"; type := str "to_do"; has_children := false;
     payload := {| rich_text := []; checked := true; title := None;
                   language := None; icon_emoji := None |} |}.

Definition done_to_do : Block :=
  {| id := str "b3"; type := str "to_do"; has_children := false;
     payload := {| rich_text := [ {| plain_text := str "Ship v2" |} ];
                   checked := true; title := None;
                   language := None; icon_emoji := None |} |}.



(** A block the loop at lines 133-145 stops at. *)
Definition is_title_source (block : Block) : bool :=
  (type_is block "heading_1" || type_is block "paragraph")
  && truthy (first_plain_text (rich_text (payload block))).

(** The statement of C2 as the specification words it: the first
    [heading_1] block with text gives the title wherever it stands. *)
Definition heading_always_preferred : Prop :=
  forall (pageData : Page) (blocks : list Block) (today : jsstr) (h : Block),
    propertyTitle pageData = [] ->
    find (fun b => type_is b "heading_1") blocks = Some h ->
    block_text h <> [] ->
    resolveTitle pageData blocks today = block_text h.

Definition page_without_title : Page :=
  {| properties := Some []; url := None |}.

Definition intro_then_goals : list Block :=
  [mk_block "paragraph" "Intro"; mk_block "heading_1" "Goals"].

Definition a_date : jsstr := str "11/2/2026".


Definition blocks_without_text : list Block :=
  [ {| id := str "d1"; type := str "divider"; has_children := false;
       payload := mk_payload [] |};
    {| id := str "h1"; type := str "heading_1"; has_children := false;
       payload := mk_payload [ {| plain_text := [] |} ] |};
    mk_block "quote" "not a title" ].

(** The notes passed to [insert], in order. *)
Fixpoint inserted (tr : list Effect) : list Note :=
  match tr with
  | InsertNote note :: tr' => note :: inserted tr'
  | _ :: tr' => inserted tr'
  | [] => []
  end.

(** The calls to the Notion API, in order. *)
Fixpoint notion_calls (tr : list Effect) : list Effect :=
  match tr with
  | GetPage p :: tr' => GetPage p :: notion_calls tr'
  | GetPageBlocks p :: tr' => GetPageBlocks p :: notion_calls tr'
  | GetBlockChildren b :: tr' => GetBlockChildren b :: notion_calls tr'
  | _ :: tr' => notion_calls tr'
  | [] => []
  end.

Definition q3_page : Page :=
  {| properties :=
       Some [(str "Name", {| prop_type := [];
                            prop_title := [ {| plain_text := str "Q3 Plan" |} ] |})];
     url := None |}.

Definition q3_blocks : list Block :=
  [mk_block "heading_1" "Goals";
   mk_block "bulleted_list_item" "Grow 10%";
   mk_block "bulleted_list_item" "Ship v2"].

(** A store and a Notion workspace in which every call succeeds: the user
    is a member, the page is [pageData] with top-level blocks [results],
    and the children of every block are [children]. *)
Definition world_of (pageData : Page) (results : list Block)
    (children : Fetched (list Block)) : World :=
  {| is_project_member := fun _ _ => {| data := Some true; error := None |};
     project_owner := fun _ => {| data := Some (str "owner"); error := None |};
     notion_connection := fun _ => {| data := Some (str "secret"); error := None |};
     notion_page := fun _ _ => HttpOk pageData;
     notion_blocks := fun _ _ => HttpOk results;
     notion_children := fun _ _ => children;
     insert_note :=
       fun note => {| data := Some {| row_id := str "n1"; row := note |};
                      error := None |};
     today := a_date |}.

Definition import_request : Request :=
  {| method := str "POST";
     json := Json {| userId := Some (str "u1"); pageId := Some (str "p1");
                     projectId := Some (str "pr1") |} |}.

Definition request_without_user : Request :=
  {| method := str "POST";
     json := Json {| userId := None; pageId := Some (str "p1");
                     projectId := Some (str "pr1") |} |}.

(** A world in which user [u1] is neither member nor owner. *)
Definition world_of_outsider : World :=
  {| is_project_member := fun _ _ => {| data := Some false; error := None |};
     project_owner := fun _ => {| data := Some (str "owner"); error := None |};
     notion_connection := fun _ => {| data := Some (str "secret"); error := None |};
     notion_page := fun _ _ => HttpOk q3_page;
     notion_blocks := fun _ _ => HttpOk q3_blocks;
     notion_children := fun _ _ => HttpOk [];
     insert_note :=
       fun note => {| data := Some {| row_id := str "n1"; row := note |};
                      error := None |};
     today := a_date |}.




(** A toggle that reports children. *)
Definition toggle_with_children : Block :=
  {| id := str "t1"; type := str "toggle"; has_children := true;
     payload := mk_payload [ {| plain_text := str "Details" |} ] |}.

Definition placeholder_text : jsstr := str "*[Error loading nested content]*".


(** The toggle's page when the fetch of the toggle's children gives
    [children]. *)
Definition toggle_world (children : Fetched (list Block)) : World :=
  world_of q3_page [toggle_with_children] children.

(** The number of leading units of [s] in the class [p]. *)
Fixpoint prefix_len (p : cu -> bool) (s : jsstr) : nat :=
  match s with
  | c :: s' => if p c then S (prefix_len p s') else 0
  | [] => 0
  end.

(** No two adjacent units of [s] are both white space. *)
Fixpoint spaced (s : jsstr) : bool :=
  match s with
  | a :: s' =>
      match s' with
      | b :: _ => negb (is_space a && is_space b) && spaced s'
      | [] => true
      end
  | [] => true
  end.

(** The first unit of [s], if any, is not white space. *)
Definition starts_solid (s : jsstr) : bool :=
  match s with
  | c :: _ => negb (is_space c)
  | [] => true
  end.

(** The last unit of [s], if any, is not white space. *)
Fixpoint ends_solid (s : jsstr) : bool :=
  match s with
  | c :: s' =>
      match s' with
      | [] => negb (is_space c)
      | _ :: _ => ends_solid s'
      end
  | [] => true
  end.

(** The statement of C4 as the specification words it. *)
Definition pass_idempotent : Prop :=
  forall s : jsstr,
    formatSummaryText (formatSummaryText s) = formatSummaryText s.

Definition three_lines : jsstr :=
  str "a" ++ [nl] ++ str "b" ++ [nl] ++ str "c".

Definition four_newlines : jsstr :=
  str "a" ++ [nl; nl; nl; nl] ++ str "b".

(** No line terminator occurs in [s]. *)
Definition single_line (s : jsstr) : bool :=
  forallb (fun c => negb (is_line_terminator c)) s.

(** The unit before the position is not a line terminator. *)
Definition inside_line (prev : option cu) : bool :=
  match prev with
  | Some p => negb (is_line_terminator p)
  | None => false
  end.

Definition one_line : jsstr := str "-   first   item  # done ".

(** A result with [text] put before the value it returns. *)
Definition prepend (text : jsstr) (r : Outcome jsstr * list Effect)
  : Outcome jsstr * list Effect :=
  match r with
  | (Value v, tr) => (Value (text ++ v), tr)
  | other => other
  end.

(** The fragments of [blocks] at [level], in order. *)
Definition fragments (blocks : list Block) (level : nat) : jsstr :=
  join (map (fun block => processBlock block level) blocks).

(* ================================================================== *)
(** * Further definitions: statements about the rest of the code *)

(** The block's type is one of the kinds that need text. *)
Definition is_text_kind (block : Block) : bool :=
  existsb (fun kind => type_is block kind) text_kinds.

(** [block] with its rich text replaced by [rt]. *)
Definition with_rich_text (block : Block) (rt : list RichText) : Block :=
  {| id := id block; type := type block; has_children := has_children block;
     payload :=
       {| rich_text := rt;
          checked := checked (payload block);
          title := title (payload block);
          language := language (payload block);
          icon_emoji := icon_emoji (payload block) |} |}.

(** A computation that never throws and whose only calls are children
    requests, added after the calls made before. *)
Definition only_fetches (m : M jsstr) : Prop :=
  forall tr : list Effect,
    (exists ids, snd (m tr) = tr ++ map GetBlockChildren ids)
    /\ (forall message, fst (m tr) <> Thrown message).

Definition flat (blocks : list Block) : bool :=
  forallb (fun block => negb (has_children block)) blocks.


(** A unit that is not white space. *)
Definition solid (c : cu) : bool := negb (is_space c).

(** The units of [s] that are not white space, in order. *)
Definition ink (s : jsstr) : jsstr := filter solid s.

(** [y] is [x], or [x] is a list marker and [y] the bullet. *)
Definition marked (x y : cu) : Prop :=
  y = x \/ (is_marker x = true /\ y = bullet).

(* ================================================================== *)
(** ** summarize-text: the request handler (part_000, lines 12-63) and
    the two provider calls (lines 87-164) *)

(** [s.slice(0, n)] *)
Definition slice0 (n : N) (s : jsstr) : jsstr := firstn (N.to_nat n) s.

(** [!text || text.trim().length === 0] *)
Definition blank (text : option jsstr) : bool :=
  match text with
  | Some s => is_empty s || Nat.eqb (List.length (trim s)) 0
  | None => true
  end.

Module SummarizeText.

(** The fields of the request object that the handler uses; [title] and
    [projectId] are only logged. *)
Record Params := {
  text : option jsstr;
  model : option jsstr;
  maxLength : option nat
}.

Inductive Parsed :=
| BadJson (message : jsstr)
| Json (params : Params).

Record Request := {
  method : jsstr;
  json : Parsed
}.

(** What a provider call does: the fetch rejects (or the body cannot be
    read), the response is not [ok], or it carries a text. *)
Inductive Completion :=
| Rejected (message : jsstr)
| Refused (statusText : jsstr)
| Completed (text : jsstr).

Record Env := {
  claudeApiKey : option jsstr;
  openAIApiKey : option jsstr;
  claude : jsstr -> nat -> Completion;
  openai : jsstr -> jsstr -> nat -> Completion
}.

Inductive Call :=
| CallClaude (prompt : jsstr) (max_tokens : nat)
| CallOpenAI (system user : jsstr) (max_tokens : nat).

Inductive Result :=
| Ok (summary : jsstr)
| Err (message : jsstr).

Inductive Body :=
| NoBody
| Success (summary model : jsstr)
| Failure (error : jsstr).

Record Response := {
  status : nat;
  body : Body
}.

Definition claude_prompt (text : jsstr) : jsstr :=
  str "Please summarize the following text. Use proper formatting with paragraphs, bullet points, and headings where appropriate. Make sure to leave proper spacing between paragraphs and after headings. Focus on the key points and main ideas:"
    ++ [nl; nl] ++ slice0 100000 text.

Definition openai_system : jsstr :=
  str "You are an AI assistant that summarizes documents. Create a concise but comprehensive summary that captures the key points and main ideas. Use proper formatting with paragraphs, bullet points, and headings as appropriate. Make sure to leave proper spacing between paragraphs and after headings.".

Definition openai_user (text : jsstr) : jsstr :=
  str "Please summarize the following text:" ++ [nl; nl] ++ slice0 100000 text.

Definition summarizeWithClaude (env : Env) (text : jsstr) (maxLength : nat)
  : Result * list Call :=
  let prompt := claude_prompt text in
  (match claude env prompt maxLength with
   | Rejected message => Err message
   | Refused statusText => Err (str "Claude API error: " ++ statusText)
   | Completed summary => Ok summary
   end,
   [CallClaude prompt maxLength]).

Definition summarizeWithOpenAI (env : Env) (text : jsstr) (maxLength : nat)
  : Result * list Call :=
  let user := openai_user text in
  (match openai env openai_system user maxLength with
   | Rejected message => Err message
   | Refused statusText => Err (str "OpenAI API error: " ++ statusText)
   | Completed summary => Ok summary
   end,
   [CallOpenAI openai_system user maxLength]).

(** The [catch] block: status 500. *)
Definition failure (message : jsstr) : Response :=
  {| status := 500;
     body := Failure (or_else (Some message) (str "Unknown error occurred")) |}.

Definition default_model (params : Params) : jsstr :=
  match model params with
  | Some m => m
  | None => str "claude"
  end.

Definition default_maxLength (params : Params) : nat :=
  match maxLength params with
  | Some n => n
  | None => 1500
  end.

(** [model === 'claude' && claudeApiKey] *)
Definition use_claude (env : Env) (params : Params) : bool :=
  jsstr_eqb (default_model params) (str "claude") && truthy (claudeApiKey env).

Definition serve (env : Env) (req : Request) : Response * list Call :=
  if jsstr_eqb (method req) (str "OPTIONS") then
    ({| status := 200; body := NoBody |}, [])
  else
    match json req with
    | BadJson message => (failure message, [])
    | Json params =>
        if blank (text params) then
          (failure (str "No text provided for summarization"), [])
        else
          let text := or_else (text params) [] in
          let maxLength := default_maxLength params in
          let with_claude := use_claude env params in
          let (summary, calls) :=
            if with_claude then summarizeWithClaude env text maxLength
            else if truthy (openAIApiKey env)
            then summarizeWithOpenAI env text maxLength
            else (Err (str "No API key available for the selected model"), []) in
          match summary with
          | Err message => (failure message, calls)
          | Ok summary =>
              ({| status := 200;
                  body :=
                    Success (formatSummaryText summary)
                      (if with_claude then str "claude" else str "openai") |},
               calls)
          end
    end.

End SummarizeText.

(* ================================================================== *)
(** ** The client of summarize-text: [summarizeText] (part_006) *)

Module SummarizeClient.

Record Options := {
  text : option jsstr;
  model : option jsstr;
  maxLength : option nat;
  title : option jsstr;
  projectId : option jsstr
}.

(** The [body] passed to [supabase.functions.invoke]. *)
Record InvokeBody := {
  body_text : jsstr;
  body_model : jsstr;
  body_maxLength : nat;
  body_title : option jsstr;
  body_projectId : option jsstr
}.

Record Data := { summary : option jsstr }.

(** What [await supabase.functions.invoke(...)] does: reject, or resolve
    to [{ data, error }]; [error] is the message of the error object. *)
Inductive Invocation :=
| InvokeRejected (message : jsstr)
| InvokeResolved (data : option Data) (error : option jsstr).

Inductive Ui :=
| ToastInfo (message : jsstr)
| ToastDismiss
| ToastError (message : jsstr)
| ToastSuccess (message : jsstr)
| Invoke (body : InvokeBody).

Inductive Outcome :=
| Returned (summary : jsstr)
| Threw (message : jsstr).

Definition provider_label (model : jsstr) : jsstr :=
  if jsstr_eqb model (str "claude") then str "Claude" else str "OpenAI".

Definition empty_response : jsstr :=
  str "Received empty response from the summarization service".

(** The outer [catch]: a toast, and a new error with the same text. *)
Definition wrapped (message : jsstr) : jsstr :=
  str "Failed to summarize text: " ++ or_else (Some message) (str "Unknown error").

Definition summarizeText (invoke : InvokeBody -> Invocation) (opts : Options)
  : Outcome * list Ui :=
  if blank (text opts) then
    (Threw (str "No text provided for summarization"), [])
  else
    let text := or_else (text opts) [] in
    let model := match model opts with Some m => m | None => str "claude" end in
    let maxLength := match maxLength opts with Some n => n | None => 1500 end in
    let body :=
      {| body_text := slice0 100000 text; body_model := model;
         body_maxLength := maxLength; body_title := title opts;
         body_projectId := projectId opts |} in
    let started :=
      [ToastInfo (str "Summarizing text using " ++ provider_label model ++ str "...");
       Invoke body] in
    match invoke body with
    | InvokeRejected message =>
        (Threw (wrapped message), started ++ [ToastError (wrapped message)])
    | InvokeResolved data error =>
        match error with
        | Some message =>
            (Threw (wrapped message),
             started
               ++ [ToastDismiss;
                   ToastError (str "Summarization failed: "
                                 ++ or_else (Some message) (str "Unknown error"));
                   ToastError (wrapped message)])
        | None =>
            match data with
            | Some {| summary := Some (c :: s) |} =>
                (Returned (c :: s),
                 started
                   ++ [ToastDismiss;
                       ToastSuccess (str "Summary generated successfully using "
                                       ++ provider_label model)])
            | _ =>
                (Threw (wrapped empty_response),
                 started
                   ++ [ToastDismiss; ToastError empty_response;
                       ToastError (wrapped empty_response)])
            end
        end
    end.

(** The request the handler receives for a body: [invoke] posts it as
    JSON. *)
Definition to_request (b : InvokeBody) : SummarizeText.Request :=
  {| SummarizeText.method := str "POST";
     SummarizeText.json :=
       SummarizeText.Json
         {| SummarizeText.text := Some (body_text b);
            SummarizeText.model := Some (body_model b);
            SummarizeText.maxLength := Some (body_maxLength b) |} |}.

End SummarizeClient.

(* ================================================================== *)
(** ** The caller of notion-import-page: [handleBatchImport] (part_003,
    lines 127-204) *)

Module BatchImport.

Record BatchResult := {
  success : bool;
  pageId : jsstr
}.

(** [batchResults] is tested with [!data.batchResults], so an empty array
    passes. *)
Record Data := {
  batchResults : option (list BatchResult);
  successCount : option nat
}.

Inductive Invocation :=
| InvokeRejected (message : jsstr)
| InvokeResolved (data : option Data) (error : option jsstr).

(** The [body] of the request: [userId], [pageIds], [projectId]. *)
Record Body := {
  userId : jsstr;
  pageIds : list jsstr;
  projectId : jsstr
}.

Record Project := {
  p_id : jsstr;
  p_title : option jsstr
}.

Inductive Ui :=
| ToastError (message : jsstr)
| SetIsBatchImporting (on : bool)
| Invoke (body : Body)
| SetRecentlyImported (next : list jsstr)
| FetchUserProjects
| ToastImported (successCount : option nat) (total : nat) (label : jsstr).

(** [batchResults.filter(r => r.success).map(r => r.pageId)] *)
Definition successfulImports (results : list BatchResult) : list jsstr :=
  map pageId (filter success results).

(** [newList.includes(pageId)] *)
Definition listed (pageId : jsstr) (newList : list jsstr) : bool :=
  existsb (jsstr_eqb pageId) newList.

(** The updater passed to [setRecentlyImported]. *)
Definition mergeImported (prev successful : list jsstr) : list jsstr :=
  fold_left
    (fun newList pageId =>
       if listed pageId newList then newList else newList ++ [pageId])
    successful prev.

(** [userProjects.find(p => p.id === selectedProject)] and
    [project?.title || 'View Project'] *)
Definition project_label (userProjects : list Project) (selectedProject : jsstr)
  : jsstr :=
  match find (fun p => jsstr_eqb (p_id p) selectedProject) userProjects with
  | Some p => or_else (p_title p) (str "View Project")
  | None => str "View Project"
  end.

Definition failed (message : jsstr) : Ui :=
  ToastError (str "Failed to import pages: "
                ++ or_else (Some message) (str "Unknown error")).

Definition handleBatchImport (selectedProject user : option jsstr)
    (userProjects : list Project) (recentlyImported : list jsstr)
    (invoke : Body -> Invocation) (pageIds : list jsstr) : list Ui :=
  if negb (truthy selectedProject) then
    [ToastError (str "Please select a project first")]
  else if Nat.eqb (List.length pageIds) 0 then
    [ToastError (str "No pages selected")]
  else
    match user with
    | None => [ToastError (str "You must be logged in to import pages")]
    | Some id =>
        let project := or_else selectedProject [] in
        let body := {| userId := id; pageIds := pageIds; projectId := project |} in
        [SetIsBatchImporting true; Invoke body]
          ++ match invoke body with
             | InvokeRejected message => [failed message]
             | InvokeResolved _ (Some message) => [failed message]
             | InvokeResolved (Some {| batchResults := Some results;
                                       successCount := count |}) None =>
                 [SetRecentlyImported
                    (mergeImported recentlyImported (successfulImports results));
                  FetchUserProjects;
                  ToastImported count (List.length pageIds)
                    (project_label userProjects project)]
             | InvokeResolved _ None =>
                 [failed (str "Invalid response from import function")]
             end
          ++ [SetIsBatchImporting false]
    end.

End BatchImport.

(** The request that carries a batch body, as line 16 of the import
    handler reads it: [userId], [pageId] and [projectId], and the body
    has no [pageId]. *)
Definition batch_request (b : BatchImport.Body) : Request :=
  {| method := str "POST";
     json :=
       Json {| userId := Some (BatchImport.userId b);
               pageId := None;
               projectId := Some (BatchImport.projectId b) |} |}.

(* ================================================================== *)
(** ** Sample inputs for the further properties *)

Definition two_runs : list RichText :=
  [ {| plain_text := str "Ship " |}; {| plain_text := str "v2" |} ].

Definition inner_paragraph : Block := mk_block "paragraph" "inside".


(** Both providers are configured and answer every call with
    [completion]. *)
Definition summarize_env (completion : SummarizeText.Completion)
  : SummarizeText.Env :=
  {| SummarizeText.claudeApiKey := Some (str "k1");
     SummarizeText.openAIApiKey := Some (str "k2");
     SummarizeText.claude := fun _ _ => completion;
     SummarizeText.openai := fun _ _ _ => completion |}.

(** Only the OpenAI key is configured. *)
Definition openai_only_env (completion : SummarizeText.Completion)
  : SummarizeText.Env :=
  {| SummarizeText.claudeApiKey := None;
     SummarizeText.openAIApiKey := Some (str "k2");
     SummarizeText.claude := fun _ _ => completion;
     SummarizeText.openai := fun _ _ _ => completion |}.

Definition summarize_params (text : option jsstr) : SummarizeText.Params :=
  {| SummarizeText.text := text; SummarizeText.model := None;
     SummarizeText.maxLength := None |}.

Definition summarize_request (text : option jsstr) : SummarizeText.Request :=
  {| SummarizeText.method := str "POST";
     SummarizeText.json := SummarizeText.Json (summarize_params text) |}.

Definition a_report : jsstr := str "Revenue grew. Costs fell.".

Definition a_completion : jsstr :=
  str "## Summary" ++ [nl; nl] ++ str "- revenue up" ++ [nl] ++ str "- costs down".

Definition client_options : SummarizeClient.Options :=
  {| SummarizeClient.text := Some a_report; SummarizeClient.model := None;
     SummarizeClient.maxLength := None; SummarizeClient.title := None;
     SummarizeClient.projectId := None |}.

(** A transport that hands the handler's answer to the client: the JSON
    body of a 2xx response as [data], an error otherwise. *)
Definition delivering (env : SummarizeText.Env)
    (b : SummarizeClient.InvokeBody) : SummarizeClient.Invocation :=
  match SummarizeText.serve env (SummarizeClient.to_request b) with
  | ({| SummarizeText.status := _;
        SummarizeText.body := SummarizeText.Success summary _ |}, _) =>
      SummarizeClient.InvokeResolved
        (Some {| SummarizeClient.summary := Some summary |}) None
  | _ =>
      SummarizeClient.InvokeResolved None
        (Some (str "Edge Function returned a non-2xx status code"))
  end.

(** A transport that always fails. *)
Definition failing_transport (b : SummarizeClient.InvokeBody)
  : SummarizeClient.Invocation :=
  SummarizeClient.InvokeResolved None
    (Some (str "Edge Function returned a non-2xx status code")).

(* ================================================================== *)
(** * Properties *)

(** ** Strings *)

Lemma cu_eqb_eq (a b : cu) : cu_eqb a b = true <-> a = b.
Proof. apply N.eqb_eq. Qed.

Lemma jsstr_eqb_eq (a b : jsstr) : jsstr_eqb a b = true <-> a = b.
Proof.
  revert b; induction a as [|x a IH]; intros [|y b]; simpl;
    try (split; [discriminate | discriminate]); try tauto.
  rewrite andb_true_iff, cu_eqb_eq, IH.
  split; [intros [-> ->]; reflexivity | intros E; inversion E; auto].
Qed.

Lemma jsstr_eqb_refl (a : jsstr) : jsstr_eqb a a = true.
Proof. apply jsstr_eqb_eq; reflexivity. Qed.

Lemma jsstr_eqb_neq (a b : jsstr) : a <> b -> jsstr_eqb a b = false.
Proof.
  intros H; destruct (jsstr_eqb a b) eqn:E; [|reflexivity].
  apply jsstr_eqb_eq in E; contradiction.
Qed.

Lemma starts_with_app (sub s : jsstr) : starts_with sub (sub ++ s) = true.
Proof.
  induction sub as [|x sub IH]; simpl; [reflexivity|].
  unfold cu_eqb; rewrite N.eqb_refl; exact IH.
Qed.

Lemma includes_prefix (sub s : jsstr) :
  starts_with sub s = true -> includes sub s = true.
Proof. intros H; destruct s; simpl; rewrite H; reflexivity. Qed.

Lemma includes_app (pre sub post : jsstr) :
  includes sub (pre ++ sub ++ post) = true.
Proof.
  induction pre as [|x pre IH].
  - cbn [app]; apply includes_prefix, starts_with_app.
  - change (includes sub (x :: (pre ++ sub ++ post)) = true).
    simpl; rewrite IH; apply orb_true_r.
Qed.

Lemma is_empty_true (s : jsstr) : is_empty s = true <-> s = [].
Proof. destruct s; simpl; split; congruence. Qed.

Lemma truthy_first_text (rt : list RichText) :
  truthy (first_plain_text rt) = true -> text_of rt <> [].
Proof.
  destruct rt as [|[t] rt]; simpl; [discriminate|].
  destruct t; [discriminate|]. unfold text_of; simpl; discriminate.
Qed.

(** Evaluates the comparisons of a known block type with the [case] labels. *)
Ltac switch_on H :=
  unfold type_is; rewrite H;
  repeat match goal with
         | |- context [jsstr_eqb (str ?a) (str ?b)] =>
             let v := eval vm_compute in (jsstr_eqb (str a) (str b)) in
             change (jsstr_eqb (str a) (str b)) with v
         end;
  cbv iota.

(* ================================================================== *)
(** ** The block converter *)

Lemma has_text_nil (block : Block) :
  rich_text (payload block) = [] -> has_text block = false.
Proof. unfold has_text; intros ->; reflexivity. Qed.

Lemma has_text_cons (block : Block) :
  rich_text (payload block) <> [] -> has_text block = true.
Proof.
  unfold has_text; destruct (rich_text (payload block)); [congruence|reflexivity].
Qed.

Lemma text_kind_empty (other : Block) (kind : string) (level : nat) :
  In kind text_kinds -> type other = str kind ->
  rich_text (payload other) = [] -> processBlock other level = [].
Proof.
  intros Hk Ht Hr. apply has_text_nil in Hr.
  unfold text_kinds in Hk; simpl in Hk.
  repeat (destruct Hk as [<-|Hk];
          [unfold processBlock; switch_on Ht; rewrite Hr; reflexivity|]).
  contradiction.
Qed.

(** C10: a [child_page] block whose title is absent or empty is converted
    to the indent, [**Child Page: Untitled**] and a blank line; the
    fragment is not empty, whereas every kind that needs text gives the
    empty fragment when its rich text is empty. *)
Theorem child_page_untitled_fragment (block : Block) (level : nat) :
  type block = str "child_page" ->
  title (payload block) = None \/ title (payload block) = Some [] ->
  processBlock block level
    = indent_of level ++ str "**Child Page: Untitled**" ++ [nl; nl]
  /\ processBlock block level <> []
  /\ (forall (other : Block) (kind : string),
        In kind text_kinds -> type other = str kind ->
        rich_text (payload other) = [] -> processBlock other level = []).
Proof.
  intros Ht Htitle.
  assert (E : processBlock block level
              = indent_of level ++ str "**Child Page: Untitled**" ++ [nl; nl]).
  { unfold processBlock; switch_on Ht.
    destruct Htitle as [-> | ->]; reflexivity. }
  split; [exact E|]. split.
  - rewrite E. intros N. apply app_eq_nil in N. destruct N as [_ N].
    discriminate N.
  - intros other kind. apply text_kind_empty.
Qed.

Lemma child_page_untitled_fragment_witness :
  type untitled_child = str "child_page"
  /\ processBlock untitled_child 1
     = str "  **Child Page: Untitled**" ++ [nl; nl].
Proof.
  split; [reflexivity|].
  exact (proj1 (child_page_untitled_fragment untitled_child 1
                  eq_refl (or_intror eq_refl))).
Defined.

(** C8 fails for a checked [to_do] block without rich text: its fragment
    is empty. *)
Lemma empty_to_do_has_no_checkbox :
  processBlock empty_to_do 0 = []
  /\ includes (str "[x]") (processBlock empty_to_do 0) = false
  /\ ~ to_do_always_shows_checkbox.
Proof.
  split; [reflexivity|]. split; [reflexivity|].
  intros H. destruct (H empty_to_do 0 eq_refl) as [Hx _].
  specialize (Hx eq_refl). vm_compute in Hx. discriminate Hx.
Qed.

(** C8 (amended): a [to_do] block with a non-empty [rich_text] array is
    converted to the indent, [- [x] ] or [- [ ] ] according to [checked],
    the text and a newline; so the fragment contains [[x]] when checked
    and [[ ]] when not. *)
Theorem to_do_checkbox (block : Block) (level : nat) :
  type block = str "to_do" ->
  rich_text (payload block) <> [] ->
  processBlock block level
    = indent_of level ++ str "- "
        ++ (if checked (payload block) then str "[x]" else str "[ ]")
        ++ str " " ++ block_text block ++ [nl]
  /\ (checked (payload block) = true ->
      includes (str "[x]") (processBlock block level) = true)
  /\ (checked (payload block) = false ->
      includes (str "[ ]") (processBlock block level) = true).
Proof.
  intros Ht Hr. apply has_text_cons in Hr.
  assert (E : processBlock block level
              = indent_of level ++ str "- "
                  ++ (if checked (payload block) then str "[x]" else str "[ ]")
                  ++ str " " ++ block_text block ++ [nl]).
  { unfold processBlock; switch_on Ht. rewrite Hr. reflexivity. }
  split; [exact E|].
  split; intros Hc; rewrite E, Hc, (app_assoc (indent_of level));
    apply includes_app.
Qed.

Lemma to_do_checkbox_witness :
  type done_to_do = str "to_do"
  /\ rich_text (payload done_to_do) <> []
  /\ processBlock done_to_do 1 = str "  - [x] Ship v2" ++ [nl].
Proof.
  split; [reflexivity|]. split; [discriminate|].
  refine (proj1 (to_do_checkbox done_to_do 1 eq_refl _)). discriminate.
Defined.


(* ================================================================== *)
(** ** Title resolution *)



Section NoPropertyText.
Variable props : list (jsstr * Property).
Hypothesis no_text :
  forallb (fun kp => is_empty (text_of (prop_title (snd kp)))) props = true.


End NoPropertyText.






Lemma contentTitle_skip (pre rest : list Block) :
  forallb (fun b => negb (is_title_source b)) pre = true ->
  contentTitle (pre ++ rest) = contentTitle rest.
Proof.
  induction pre as [|block pre IH]; simpl; [reflexivity|].
  rewrite andb_true_iff; intros [Hb Hpre].
  unfold is_title_source in Hb.
  destruct (type_is block "heading_1"), (type_is block "paragraph"),
    (truthy (first_plain_text (rich_text (payload block))));
    simpl in *; try discriminate; apply IH; exact Hpre.
Qed.

Lemma ellipsis40_nonempty (s : jsstr) : s <> [] -> ellipsis40 s <> [].
Proof.
  unfold ellipsis40; intros H. destruct (40 <? List.length s); [|exact H].
  intros N; apply app_eq_nil in N; destruct N as [_ N]; discriminate N.
Qed.

(** C2 fails when a paragraph with text stands before the first heading:
    the paragraph gives the title. *)
Lemma paragraph_before_heading_wins :
  propertyTitle page_without_title = []
  /\ resolveTitle page_without_title intro_then_goals a_date = str "Intro"
  /\ resolveTitle page_without_title intro_then_goals a_date <> str "Goals"
  /\ ~ heading_always_preferred.
Proof.
  split; [reflexivity|]. split; [reflexivity|]. split; [discriminate|].
  intros H.
  specialize (H page_without_title intro_then_goals a_date
                (mk_block "heading_1" "Goals") eq_refl eq_refl).
  assert (N : block_text (mk_block "heading_1" "Goals") <> []) by discriminate.
  specialize (H N). discriminate H.
Qed.

(** C2 (amended): when the page properties give no title text, the title
    comes from the first block, in document order, that is a [heading_1]
    or a [paragraph] whose first run has text: the whole text of a
    heading, and for a paragraph the text cut to 40 units plus [...] when
    longer.  A heading is preferred to a paragraph only when it stands
    first. *)
Theorem title_from_first_text_block (pageData : Page)
    (pre : list Block) (block : Block) (post : list Block) (today : jsstr) :
  propertyTitle pageData = [] ->
  forallb (fun b => negb (is_title_source b)) pre = true ->
  truthy (first_plain_text (rich_text (payload block))) = true ->
  (type block = str "heading_1" ->
   resolveTitle pageData (pre ++ block :: post) today = block_text block)
  /\ (type block = str "paragraph" ->
      resolveTitle pageData (pre ++ block :: post) today
        = ellipsis40 (block_text block)).
Proof.
  intros Hp Hpre Htext.
  pose proof (truthy_first_text _ Htext) as Hne.
  unfold resolveTitle. rewrite Hp, (contentTitle_skip _ _ Hpre). simpl is_empty.
  cbv iota.
  split; intros Ht; simpl contentTitle; rewrite Htext; switch_on Ht; simpl andb;
    cbv iota; unfold block_text.
  - destruct (text_of (rich_text (payload block))); [contradiction|reflexivity].
  - pose proof (ellipsis40_nonempty Hne) as He.
    destruct (ellipsis40 (text_of (rich_text (payload block))));
      [contradiction|reflexivity].
Qed.

Lemma title_from_first_text_block_witness :
  propertyTitle page_without_title = []
  /\ resolveTitle page_without_title
       (blocks_without_text ++ mk_block "heading_1" "Goals"
          :: [mk_block "paragraph" "Intro"]) a_date
     = str "Goals".
Proof.
  split; [reflexivity|].
  exact (proj1 (title_from_first_text_block page_without_title
                  blocks_without_text (mk_block "heading_1" "Goals")
                  [mk_block "paragraph" "Intro"] a_date
                  eq_refl eq_refl eq_refl) eq_refl).
Defined.


(* ================================================================== *)
(** ** The conversion loop *)

Lemma prepend_prepend (a b : jsstr) (r : Outcome jsstr * list Effect) :
  prepend a (prepend b r) = prepend (a ++ b) r.
Proof.
  destruct r as [[v|e|] tr]; cbn [prepend]; rewrite ?app_assoc; reflexivity.
Qed.

(** The text accumulated before a block only prefixes the result. *)
Lemma each_block_acc (nested : list Block -> M jsstr) (w : World)
    (accessToken : jsstr) (level : nat) (blocks : list Block) :
  forall (acc : jsstr) (tr : list Effect),
    each_block nested w accessToken level blocks acc tr
    = prepend acc (each_block nested w accessToken level blocks [] tr).
Proof.
  induction blocks as [|block rest IH]; intros acc tr.
  - cbn [each_block]. unfold ret, prepend. rewrite app_nil_r. reflexivity.
  - cbn [each_block]. cbv zeta. cbn [app].
    destruct (has_children block).
    + unfold bind, try_catch, fetchChildren, bind, perform, throw, ret.
      destruct (notion_children w accessToken (id block))
        as [message|message|results].
      * rewrite (IH ((acc ++ processBlock block level) ++ placeholder)),
          (IH (processBlock block level ++ placeholder)), prepend_prepend,
          app_assoc.
        reflexivity.
      * rewrite (IH (acc ++ processBlock block level)),
          (IH (processBlock block level)), prepend_prepend.
        reflexivity.
      * destruct (nested results (tr ++ [GetBlockChildren (id block)]))
          as [[more|e|] tr'].
        -- rewrite (IH ((acc ++ processBlock block level) ++ more)),
             (IH (processBlock block level ++ more)), prepend_prepend,
             app_assoc.
           reflexivity.
        -- rewrite (IH ((acc ++ processBlock block level) ++ placeholder)),
             (IH (processBlock block level ++ placeholder)), prepend_prepend,
             app_assoc.
           reflexivity.
        -- reflexivity.
    + rewrite (IH (acc ++ processBlock block level)),
        (IH (processBlock block level)), prepend_prepend.
      reflexivity.
Qed.

(** Blocks without children only contribute their fragments. *)
Lemma each_block_flat (nested : list Block -> M jsstr) (w : World)
    (accessToken : jsstr) (level : nat) (pre rest : list Block)
    (tr : list Effect) :
  forallb (fun block => negb (has_children block)) pre = true ->
  each_block nested w accessToken level (pre ++ rest) [] tr
  = prepend (fragments pre level)
      (each_block nested w accessToken level rest [] tr).
Proof.
  intros H. induction pre as [|block pre IH].
  - cbn [app]. unfold fragments. cbn [map join concat].
    destruct (each_block nested w accessToken level rest [] tr) as [[v|e|] t];
      reflexivity.
  - simpl in H. apply andb_true_iff in H. destruct H as [Hb Hpre].
    apply negb_true_iff in Hb.
    cbn [app each_block]. cbv zeta. rewrite Hb. cbn [app].
    rewrite each_block_acc, (IH Hpre), prepend_prepend.
    unfold fragments, join. cbn [map concat]. reflexivity.
Qed.

(** Without nested blocks the conversion makes no call and returns the
    fragments of the blocks in document order. *)
Lemma processBlocks_flat (fuel : nat) (w : World) (accessToken : jsstr)
    (blocks : list Block) (level : nat) (tr : list Effect) :
  forallb (fun block => negb (has_children block)) blocks = true ->
  processBlocks (S fuel) w accessToken blocks level tr
  = (Value (join (map (fun block => processBlock block level) blocks)), tr).
Proof.
  intros H. cbn [processBlocks].
  rewrite <- (app_nil_r blocks) at 1. rewrite each_block_flat by exact H.
  cbn [each_block]. unfold ret, prepend, fragments. rewrite app_nil_r.
  reflexivity.
Qed.

(** When the fetch of a block's children rejects, the placeholder follows
    the block's own fragment, at the block's position in the document,
    and the conversion goes on with the next block. *)
Lemma rejected_children_give_placeholder (fuel : nat) (w : World)
    (accessToken : jsstr) (pre : list Block) (block : Block)
    (post : list Block) (level : nat) (message : jsstr) (tr : list Effect) :
  forallb (fun b => negb (has_children b)) pre = true ->
  has_children block = true ->
  notion_children w accessToken (id block) = NetworkError message ->
  processBlocks (S fuel) w accessToken (pre ++ block :: post) level tr
  = prepend (fragments pre level ++ processBlock block level ++ placeholder)
      (processBlocks (S fuel) w accessToken post level
         (tr ++ [GetBlockChildren (id block)])).
Proof.
  intros Hpre Hc Hf. cbn [processBlocks].
  rewrite each_block_flat by exact Hpre.
  cbn [each_block]. cbv zeta. rewrite Hc. cbn [app].
  unfold bind, try_catch, fetchChildren, bind, perform, throw, ret.
  rewrite Hf. rewrite each_block_acc, prepend_prepend. reflexivity.
Qed.

(** When the fetch answers with a non-2xx status, nothing is appended:
    neither children nor the placeholder. *)
Lemma refused_children_give_nothing (fuel : nat) (w : World)
    (accessToken : jsstr) (pre : list Block) (block : Block)
    (post : list Block) (level : nat) (message : option jsstr)
    (tr : list Effect) :
  forallb (fun b => negb (has_children b)) pre = true ->
  has_children block = true ->
  notion_children w accessToken (id block) = HttpError message ->
  processBlocks (S fuel) w accessToken (pre ++ block :: post) level tr
  = prepend (fragments pre level ++ processBlock block level)
      (processBlocks (S fuel) w accessToken post level
         (tr ++ [GetBlockChildren (id block)])).
Proof.
  intros Hpre Hc Hf. cbn [processBlocks].
  rewrite each_block_flat by exact Hpre.
  cbn [each_block]. cbv zeta. rewrite Hc. cbn [app].
  unfold bind, try_catch, fetchChildren, bind, perform, throw, ret.
  rewrite Hf. rewrite each_block_acc, prepend_prepend. reflexivity.
Qed.

(** The conversion adds children requests only and never throws. *)
Lemma each_block_only_fetches (nested : list Block -> M jsstr) (w : World)
    (accessToken : jsstr) (level : nat) :
  (forall results, only_fetches (nested results)) ->
  forall blocks acc, only_fetches (each_block nested w accessToken level blocks acc).
Proof.
  intros Hn. induction blocks as [|block rest IH]; intros acc tr.
  - cbn [each_block]. unfold ret. cbn [fst snd]. split; [|discriminate].
    exists []. cbn [map]. rewrite app_nil_r. reflexivity.
  - cbn [each_block]. cbv zeta. destruct (has_children block); [|apply IH].
    unfold bind at 1. unfold try_catch, fetchChildren, bind, perform, throw, ret.
    set (tr1 := tr ++ [GetBlockChildren (id block)]).
    assert (Step : forall acc',
               (exists ids,
                   snd (each_block nested w accessToken level rest acc' tr1)
                   = tr ++ map GetBlockChildren ids)
               /\ (forall message,
                      fst (each_block nested w accessToken level rest acc' tr1)
                      <> Thrown message)).
    { intros acc'. destruct (IH acc' tr1) as [[ids E] N]. split; [|exact N].
      exists (id block :: ids). rewrite E. unfold tr1.
      rewrite <- app_assoc. reflexivity. }
    destruct (notion_children w accessToken (id block)) as [m|m|results];
      try apply Step.
    destruct (Hn results tr1) as [[ids E] N].
    destruct (nested results tr1) as [[more|e|] tr2] eqn:R; cbn [fst snd] in *.
    + destruct (IH ((acc ++ processBlock block level) ++ more) tr2)
        as [[ids' E'] N'].
      split; [|exact N']. exists (id block :: ids ++ ids').
      rewrite E', E. unfold tr1. cbn [map]. rewrite map_app, <- !app_assoc.
      reflexivity.
    + exfalso. exact (N e eq_refl).
    + split; [|discriminate]. exists (id block :: ids).
      rewrite E. unfold tr1. rewrite <- app_assoc. reflexivity.
Qed.

Lemma processBlocks_quiet (fuel : nat) (w : World)
    (accessToken : jsstr) :
  forall (blocks : list Block) (level : nat),
    only_fetches (processBlocks fuel w accessToken blocks level).
Proof.
  induction fuel as [|fuel IH]; intros blocks level.
  - intros tr. cbn [processBlocks]. unfold diverge. cbn [fst snd].
    split; [|discriminate]. exists []. cbn [map]. rewrite app_nil_r. reflexivity.
  - cbn [processBlocks]. apply each_block_only_fetches.
    intros results. apply IH.
Qed.

(* ================================================================== *)
(** ** The module as written *)

(** The second [processBlocks] and the second [content] are declared
    again; every other name of the block is bound once. *)
Lemma try_block_redeclared :
  redeclared [] try_block
  = [ {| binder := AsyncFunctionBinding; bound_name := "processBlocks";
         at_line := 271 |};
      {| binder := LetBinding; bound_name := "content"; at_line := 305 |}
    ]%string.
Proof. reflexivity. Qed.

(** Whatever the statements of the handler do, the module is rejected
    when it is loaded and the request gets no answer from it. *)
Lemma module_is_rejected (handler : Handler) (req : Request) :
  load try_block handler = SyntaxError (redeclared [] try_block)
  /\ respond (load try_block handler) req = None.
Proof. split; reflexivity. Qed.

Lemma inserted_app (a b : list Effect) :
  inserted (a ++ b) = inserted a ++ inserted b.
Proof.
  induction a as [|e a IH]; [reflexivity|].
  destruct e; cbn [app inserted]; rewrite IH; reflexivity.
Qed.

Lemma inserted_fetches (ids : list jsstr) :
  inserted (map GetBlockChildren ids) = [].
Proof. induction ids as [|i ids IH]; [reflexivity|exact IH]. Qed.

Lemma notion_calls_app (a b : list Effect) :
  notion_calls (a ++ b) = notion_calls a ++ notion_calls b.
Proof.
  induction a as [|e a IH]; [reflexivity|].
  destruct e; cbn [app notion_calls]; rewrite IH; reflexivity.
Qed.

(* ================================================================== *)
(** ** The statements of the handler *)

(** C6 on the module as written: a request whose object lacks [userId],
    [pageId] or [projectId] gets no answer, hence no 400 envelope: the
    [try] block declares [processBlocks] and [content] twice, and the
    module is rejected when it is loaded, whatever its handler does.
    The statements themselves show what was meant: the validation of
    lines 16-20 throws the missing-parameters message before any call,
    and the [catch] block turns that message into the 400 envelope. *)
Theorem missing_parameter_gets_no_answer (handler : Handler) (req : Request)
    (params : RequestBody) (tr : list Effect) :
  json req = Json params ->
  userId params = None \/ pageId params = None \/ projectId params = None ->
  load try_block handler
  = SyntaxError
      [ {| binder := AsyncFunctionBinding; bound_name := "processBlocks";
           at_line := 271 |};
        {| binder := LetBinding; bound_name := "content"; at_line := 305 |} ]
  /\ respond (load try_block handler) req = None
  /\ required_parameters req tr
     = (Thrown (str "Missing required parameters: userId, pageId, and projectId"),
        tr)
  /\ failure_response
       (str "Missing required parameters: userId, pageId, and projectId")
     = {| status := 400;
          response_body :=
            FailureBody
              (str "Missing required parameters: userId, pageId, and projectId") |}.
Proof.
  intros Hj Hmiss.
  destruct (module_is_rejected handler req) as [L R].
  split; [exact L|]. split; [exact R|]. split; [|reflexivity].
  unfold required_parameters. rewrite Hj.
  assert (G : truthy (userId params) && truthy (pageId params)
              && truthy (projectId params) = false).
  { destruct Hmiss as [-> | [-> | ->]]; simpl;
      rewrite ?andb_false_r; reflexivity. }
  rewrite G. reflexivity.
Qed.

Lemma missing_parameter_gets_no_answer_witness :
  respond (load try_block (fun _ => (Diverged, []))) request_without_user = None
  /\ required_parameters request_without_user []
     = (Thrown (str "Missing required parameters: userId, pageId, and projectId"),
        []).
Proof.
  pose proof (@missing_parameter_gets_no_answer (fun _ => (Diverged, []))
                request_without_user _ [] eq_refl (or_introl eq_refl))
    as [_ [H2 [H3 _]]].
  split; [exact H2|exact H3].
Defined.

(** C9 on the module as written: the request of a user who is neither a
    member nor the owner of the project gets no answer either, for the
    same reason.  The access check of lines 27-41 itself throws
    [You don't have access to this project] after the membership and the
    owner query, with no call to the Notion API and no insert, and the
    [catch] block turns that message into the 400 envelope. *)
Theorem outsider_gets_no_answer (handler : Handler) (req : Request)
    (w : World) (u pr : jsstr) (tr : list Effect) :
  data (is_project_member w pr u) <> Some true ->
  data (project_owner w pr) <> Some u ->
  respond (load try_block handler) req = None
  /\ verify_access w u pr tr
     = (Thrown (str "You don't have access to this project"),
        tr ++ [RpcIsProjectMember pr u; SelectProjectOwner pr])
  /\ notion_calls (snd (verify_access w u pr tr)) = notion_calls tr
  /\ inserted (snd (verify_access w u pr tr)) = inserted tr
  /\ failure_response (str "You don't have access to this project")
     = {| status := 400;
          response_body :=
            FailureBody (str "You don't have access to this project") |}.
Proof.
  intros Hmember Howner.
  assert (E : verify_access w u pr tr
              = (Thrown (str "You don't have access to this project"),
                 tr ++ [RpcIsProjectMember pr u; SelectProjectOwner pr])).
  { unfold verify_access, bind, perform. cbv zeta.
    assert (A : is_true (data (is_project_member w pr u)) = false).
    { destruct (data (is_project_member w pr u)) as [[|]|];
        simpl; congruence. }
    assert (B : owner_differs (data (project_owner w pr)) u = true).
    { unfold owner_differs.
      destruct (data (project_owner w pr)) as [o|]; [|reflexivity].
      rewrite jsstr_eqb_neq; [reflexivity | congruence]. }
    rewrite A, B. cbn [negb andb]. rewrite orb_true_r.
    unfold throw, no_access. rewrite <- app_assoc. reflexivity. }
  split; [apply module_is_rejected|]. split; [exact E|].
  rewrite E. cbn [snd]. rewrite notion_calls_app, inserted_app.
  cbn [notion_calls inserted]. rewrite !app_nil_r.
  repeat split.
Qed.

Lemma outsider_gets_no_answer_witness :
  respond (load try_block (fun _ => (Diverged, []))) import_request = None
  /\ verify_access world_of_outsider (str "u1") (str "pr1") []
     = (Thrown (str "You don't have access to this project"),
        [RpcIsProjectMember (str "pr1") (str "u1");
         SelectProjectOwner (str "pr1")]).
Proof.
  assert (M : data (is_project_member world_of_outsider (str "pr1") (str "u1"))
              <> Some true) by discriminate.
  assert (O : data (project_owner world_of_outsider (str "pr1"))
              <> Some (str "u1")) by discriminate.
  pose proof (@outsider_gets_no_answer (fun _ => (Diverged, [])) import_request
                world_of_outsider (str "u1") (str "pr1") [] M O)
    as [H1 [H2 _]].
  split; [exact H1|exact H2].
Defined.




(* ================================================================== *)
(** ** Nested children: the claim *)

(** C3 at a refused fetch: when the children request of a block is
    answered with an error status, the conversion appends nothing at the
    block's position, neither children nor
    [*[Error loading nested content]*], and goes on with the next block.
    For a toggle alone the document is the toggle line and does not
    contain the placeholder; when the same fetch rejects instead, the
    placeholder follows the toggle line. *)
Theorem refused_children_leave_no_placeholder :
  (forall (fuel : nat) (w : World) (accessToken : jsstr) (pre : list Block)
          (block : Block) (post : list Block) (level : nat)
          (message : option jsstr) (tr : list Effect),
      forallb (fun b => negb (has_children b)) pre = true ->
      has_children block = true ->
      notion_children w accessToken (id block) = HttpError message ->
      processBlocks (S fuel) w accessToken (pre ++ block :: post) level tr
      = prepend (fragments pre level ++ processBlock block level)
          (processBlocks (S fuel) w accessToken post level
             (tr ++ [GetBlockChildren (id block)])))
  /\ processBlocks 2 (toggle_world (HttpError (Some (str "Not found"))))
       (str "secret") [toggle_with_children] 0 []
     = (Value (str "**Toggle: Details**" ++ [nl; nl]),
        [GetBlockChildren (str "t1")])
  /\ includes placeholder_text (str "**Toggle: Details**" ++ [nl; nl]) = false
  /\ processBlocks 2 (toggle_world (NetworkError (str "connection reset")))
       (str "secret") [toggle_with_children] 0 []
     = (Value (str "**Toggle: Details**" ++ [nl; nl; nl; nl]
                 ++ str "*[Error loading nested content]*" ++ [nl; nl]),
        [GetBlockChildren (str "t1")]).
Proof.
  split; [|repeat split; reflexivity].
  intros fuel w accessToken pre block post level message tr Hpre Hc Hf.
  exact (@refused_children_give_nothing fuel w accessToken pre block post
           level message tr Hpre Hc Hf).
Qed.


(* ================================================================== *)
(** ** The matcher *)

Lemma skipn_step (c : cu) (s s0 : jsstr) (pos : nat) :
  c :: s = skipn pos s0 -> s = skipn (S pos) s0 /\ S pos <= List.length s0.
Proof.
  revert s0; induction pos as [|pos IH]; intros [|a s0]; simpl; try discriminate.
  - intros E; inversion E; split; [reflexivity|lia].
  - intros E. destruct (IH _ E) as [H1 H2]. split; [exact H1|lia].
Qed.

Lemma rep_result (Q : option (nat * captures) -> Prop) (s0 : jsstr)
    (p : cu -> bool) (caps : captures) (k : cont) :
  Q None ->
  (forall prev' s' pos',
      s' = skipn pos' s0 -> pos' <= List.length s0 -> Q (k prev' s' pos' caps)) ->
  forall s lo hi prev pos,
    s = skipn pos s0 -> pos <= List.length s0 ->
    Q (rep p lo hi prev s pos caps k).
Proof.
  intros QN Qk. induction s as [|c s IH]; intros lo hi prev pos E L.
  - cbn [rep]. destruct lo; auto.
  - cbn [rep]. destruct (p c && may_repeat hi).
    + destruct (@skipn_step _ _ _ _ E) as [E' L'].
      pose proof (IH (pred lo) (option_map pred hi) (Some c) (S pos) E' L') as H.
      destruct (rep p (pred lo) (option_map pred hi) (Some c) s (S pos) caps k);
        [exact H|]. destruct lo; auto.
    + destruct lo; auto.
Qed.

Lemma rep_greedy_all (p : cu -> bool) (caps : captures) (k : cont)
    (r : nat * captures) :
  forall s lo prev pos,
    forallb p s = true -> lo <= List.length s ->
    (forall prev', k prev' [] (pos + List.length s) caps = Some r) ->
    rep p lo None prev s pos caps k = Some r.
Proof.
  induction s as [|c s IH]; intros lo prev pos Hp L Hk.
  - cbn [rep]. simpl in L. destruct lo; [|lia].
    rewrite <- (Hk prev). simpl. rewrite Nat.add_0_r. reflexivity.
  - cbn [rep may_repeat option_map]. simpl in Hp. apply andb_true_iff in Hp.
    destruct Hp as [Hc Hs]. rewrite Hc. cbn [andb].
    rewrite (IH (pred lo) (Some c) (S pos)); [reflexivity | exact Hs | simpl in L; lia |].
    intros prev'. rewrite <- (Hk prev'). f_equal. simpl. lia.
Qed.

Lemma forallb_skipn {A} (q : A -> bool) (s : list A) (n : nat) :
  forallb q s = true -> forallb q (skipn n s) = true.
Proof.
  revert s; induction n as [|n IH]; intros [|a s]; simpl; auto.
  rewrite andb_true_iff; intros [_ H]; auto.
Qed.

Lemma exec_after_heading_flat (s : jsstr) :
  forallb not_nl s = true ->
  exec re_after_heading None s = None
  \/ exec re_after_heading None s = Some (List.length s, [(1, s)]).
Proof.
  intros Hs. unfold exec, re_after_heading, re_heading_marker.
  cbn [run].
  apply rep_result with (s0 := s);
    [left; reflexivity | | reflexivity | lia].
  intros prev' s' pos' E L.
  destruct s' as [|w s2]; [left; reflexivity|].
  destruct (is_space w); [|left; reflexivity].
  destruct (@skipn_step _ _ _ _ E) as [E2 L2].
  destruct s2 as [|c2 s3]; [left; reflexivity|].
  right. apply rep_greedy_all.
  - rewrite E2. apply forallb_skipn, Hs.
  - simpl; lia.
  - intros prev''. cbn [run accept].
    assert (EL : S pos' + List.length (c2 :: s3) = List.length s).
    { rewrite E2, length_skipn. lia. }
    rewrite EL, Nat.sub_0_r, firstn_all. reflexivity.
Qed.

(* ================================================================== *)
(** ** The formatting pass: white space *)

Lemma rep_accept (p : cu -> bool) (s : jsstr) :
  forall lo prev pos caps,
    rep p lo None prev s pos caps accept
    = if lo <=? prefix_len p s then Some (pos + prefix_len p s, caps) else None.
Proof.
  induction s as [|c s IH]; intros lo prev pos caps.
  - simpl. destruct lo; simpl; [rewrite Nat.add_0_r|]; reflexivity.
  - cbn [rep prefix_len may_repeat option_map]. rewrite andb_true_r.
    destruct (p c).
    + rewrite IH.
      destruct (Nat.leb_spec (pred lo) (prefix_len p s)) as [L|L].
      * replace (lo <=? S (prefix_len p s)) with true
          by (symmetry; apply Nat.leb_le; lia).
        f_equal. f_equal. lia.
      * replace (lo <=? S (prefix_len p s)) with false
          by (symmetry; apply Nat.leb_gt; lia).
        destruct lo; [lia|reflexivity].
    + destruct lo; simpl; [rewrite Nat.add_0_r|]; reflexivity.
Qed.

Lemma exec_spaces (prev : option cu) (s : jsstr) :
  exec re_spaces prev s
  = if 2 <=? prefix_len is_space s then Some (prefix_len is_space s, []) else None.
Proof. unfold exec, re_spaces. cbn [run]. apply rep_accept. Qed.

Lemma exec_newlines (prev : option cu) (s : jsstr) :
  exec re_newlines prev s
  = if 3 <=? prefix_len is_nl s then Some (prefix_len is_nl s, []) else None.
Proof. unfold exec, re_newlines. cbn [run]. apply rep_accept. Qed.

Lemma spaced_tail c s : spaced (c :: s) = true -> spaced s = true.
Proof. simpl. destruct s; [reflexivity|]. rewrite andb_true_iff. tauto. Qed.

Lemma spaced_cons c s :
  spaced s = true -> (is_space c = true -> starts_solid s = true) -> spaced (c :: s) = true.
Proof.
  intros Hs Hc. destruct s as [|b s]; [reflexivity|].
  change (negb (is_space c && is_space b) && spaced (b :: s) = true).
  rewrite Hs, andb_true_r. destruct (is_space c); [|reflexivity].
  simpl in Hc. specialize (Hc eq_refl). destruct (is_space b); [discriminate|reflexivity].
Qed.

Lemma prefix_len_0_solid s : prefix_len is_space s = 0 -> starts_solid s = true.
Proof. destruct s as [|c s]; simpl; [reflexivity|]. destruct (is_space c); [discriminate|reflexivity]. Qed.

Lemma collapse_from_spaced (s : jsstr) :
  forall prev skip,
    skip = 0 \/ prefix_len is_space s = skip ->
    spaced (replace_from re_spaces [Lit [space]] prev skip s) = true
    /\ (prefix_len is_space s = skip ->
        starts_solid (replace_from re_spaces [Lit [space]] prev skip s) = true).
Proof.
  induction s as [|c s IH]; intros prev skip Hpre.
  - destruct skip; simpl; auto.
  - destruct skip as [|n].
    + cbn [replace_from]. rewrite exec_spaces.
      destruct (Nat.leb_spec 2 (prefix_len is_space (c :: s))) as [L|L].
      * destruct (prefix_len is_space (c :: s)) as [|m] eqn:E; [lia|].
        cbn [expand app].
        simpl in E. destruct (is_space c) eqn:Sc; [|discriminate].
        injection E as E.
        destruct (IH (Some c) m (or_intror E)) as [H1 H2].
        split; [|discriminate].
        apply spaced_cons; auto.
      * destruct (IH (Some c) 0 (or_introl eq_refl)) as [H1 H2].
        split.
        -- apply spaced_cons; auto. intros Sc. apply H2.
           simpl in L. rewrite Sc in L. lia.
        -- simpl. destruct (is_space c); [discriminate|reflexivity].
    + destruct Hpre as [Hpre|Hpre]; [discriminate|].
      cbn [replace_from]. simpl in Hpre.
      destruct (is_space c); [|discriminate]. injection Hpre as Hpre.
      destruct (IH (Some c) n (or_intror Hpre)) as [H1 H2].
      split; auto.
Qed.

Lemma collapse_spaces_spaced s : spaced (collapse_spaces s) = true.
Proof. apply collapse_from_spaced; auto. Qed.

Lemma is_nl_is_space c : is_nl c = true -> is_space c = true.
Proof. unfold is_nl; intros H; apply cu_eqb_eq in H; subst; reflexivity. Qed.

Lemma spaced_prefix_len s : spaced s = true -> prefix_len is_space s <= 1.
Proof.
  destruct s as [|a [|b s]]; simpl; try lia.
  - destruct (is_space a); lia.
  - destruct (is_space a), (is_space b); simpl; try lia; discriminate.
Qed.

Lemma prefix_len_nl_le s : prefix_len is_nl s <= prefix_len is_space s.
Proof.
  induction s as [|c s IH]; simpl; [lia|].
  destruct (is_nl c) eqn:N; [rewrite (@is_nl_is_space _ N); lia | lia].
Qed.

Lemma collapse_spaces_fixed (s : jsstr) :
  spaced s = true -> collapse_spaces s = s.
Proof.
  unfold collapse_spaces, replace_all. generalize (@None cu).
  induction s as [|c s IH]; intros prev Hs; [reflexivity|].
  cbn [replace_from]. rewrite exec_spaces.
  pose proof (@spaced_prefix_len _ Hs) as L.
  destruct (Nat.leb_spec 2 (prefix_len is_space (c :: s))); [lia|].
  f_equal. apply IH. exact (@spaced_tail _ _ Hs).
Qed.

Lemma collapse_newlines_fixed (s : jsstr) :
  spaced s = true -> collapse_newlines s = s.
Proof.
  unfold collapse_newlines, replace_all. generalize (@None cu).
  induction s as [|c s IH]; intros prev Hs; [reflexivity|].
  cbn [replace_from]. rewrite exec_newlines.
  pose proof (@spaced_prefix_len _ Hs) as L.
  pose proof (prefix_len_nl_le (c :: s)) as L'.
  destruct (Nat.leb_spec 3 (prefix_len is_nl (c :: s))); [lia|].
  f_equal. apply IH. exact (@spaced_tail _ _ Hs).
Qed.

Lemma trimStart_spaced s : spaced s = true -> spaced (trimStart s) = true.
Proof.
  induction s as [|c s IH]; intros Hs; [reflexivity|].
  cbn [trimStart]. destruct (is_space c); [|exact Hs].
  apply IH. exact (@spaced_tail _ _ Hs).
Qed.

Lemma trimStart_solid s : starts_solid (trimStart s) = true.
Proof.
  induction s as [|c s IH]; [reflexivity|].
  cbn [trimStart]. destruct (is_space c) eqn:E; [exact IH|].
  simpl. rewrite E. reflexivity.
Qed.

Lemma trimEnd_cons c s :
  trimEnd (c :: s)
  = match trimEnd s with
    | [] => if is_space c then [] else [c]
    | t => c :: t
    end.
Proof. reflexivity. Qed.

Lemma trimEnd_head s : starts_solid s = true -> starts_solid (trimEnd s) = true.
Proof.
  destruct s as [|c s]; [reflexivity|].
  rewrite trimEnd_cons. cbn [starts_solid]. intros H.
  destruct (trimEnd s); [|exact H].
  destruct (is_space c) eqn:E; [reflexivity|].
  cbn [starts_solid]. rewrite E. reflexivity.
Qed.

Lemma trimEnd_spaced s : spaced s = true -> spaced (trimEnd s) = true.
Proof.
  induction s as [|c s IH]; intros Hs; [reflexivity|].
  rewrite trimEnd_cons. specialize (IH (@spaced_tail _ _ Hs)).
  destruct (trimEnd s) as [|b t] eqn:E.
  - destruct (is_space c); reflexivity.
  - apply spaced_cons; [exact IH|].
    intros Sc. destruct s as [|b' s']; [discriminate|].
    assert (b' = b).
    { rewrite trimEnd_cons in E. destruct (trimEnd s'); [destruct (is_space b'); congruence|congruence]. }
    subst b'. simpl in Hs. rewrite Sc in Hs. simpl.
    destruct (is_space b); [discriminate|reflexivity].
Qed.

Lemma trimEnd_ends_solid s : ends_solid (trimEnd s) = true.
Proof.
  induction s as [|c s IH]; [reflexivity|].
  rewrite trimEnd_cons. destruct (trimEnd s) as [|b t].
  - destruct (is_space c) eqn:E; simpl; [reflexivity|rewrite E; reflexivity].
  - exact IH.
Qed.

Lemma trimStart_fixed s : starts_solid s = true -> trimStart s = s.
Proof.
  destruct s as [|c s]; [reflexivity|]. simpl.
  destruct (is_space c); [discriminate|reflexivity].
Qed.

Lemma trimEnd_fixed s : ends_solid s = true -> trimEnd s = s.
Proof.
  induction s as [|c s IH]; [reflexivity|].
  rewrite trimEnd_cons. simpl. destruct s as [|b s].
  - simpl. destruct (is_space c); [discriminate|reflexivity].
  - intros H. rewrite (IH H). reflexivity.
Qed.

Lemma trim_fixed s :
  starts_solid s = true -> ends_solid s = true -> trim s = s.
Proof.
  intros H1 H2. unfold trim. rewrite (@trimStart_fixed _ H1). apply trimEnd_fixed, H2.
Qed.

Lemma trim_solid s :
  starts_solid (trim s) = true /\ ends_solid (trim s) = true.
Proof.
  unfold trim. split; [apply trimEnd_head, trimStart_solid | apply trimEnd_ends_solid].
Qed.

Lemma trim_spaced s : spaced s = true -> spaced (trim s) = true.
Proof. intros H. apply trimEnd_spaced, trimStart_spaced, H. Qed.

Lemma spaced_no_blank_line s : spaced s = true -> includes [nl; nl] s = false.
Proof.
  induction s as [|a s IH]; intros Hs; [reflexivity|].
  cbn [includes]. rewrite (IH (@spaced_tail _ _ Hs)), orb_false_r.
  destruct s as [|b s]; cbn [starts_with]; [apply andb_false_r|].
  cbn [spaced] in Hs. apply andb_true_iff in Hs. destruct Hs as [Hs _].
  destruct (cu_eqb nl a) eqn:A; [|reflexivity].
  destruct (cu_eqb nl b) eqn:B; [|reflexivity].
  apply cu_eqb_eq in A, B. subst. discriminate Hs.
Qed.

Lemma formatSummaryText_normal (s : jsstr) :
  spaced (formatSummaryText s) = true
  /\ starts_solid (formatSummaryText s) = true
  /\ ends_solid (formatSummaryText s) = true.
Proof.
  destruct s as [|c s]; [repeat split|].
  unfold formatSummaryText. cbv zeta.
  split; [apply trim_spaced, collapse_spaces_spaced | apply trim_solid].
Qed.

(* ================================================================== *)
(** ** The formatting pass on one line *)

(** *** Rules that find no match *)

Lemma replace_from_id (r : regex) (t : list piece)
    (I : option cu -> jsstr -> Prop) :
  (forall prev s, I prev s -> exec r prev s = None) ->
  (forall prev c s, I prev (c :: s) -> I (Some c) s) ->
  forall s prev, I prev s -> replace_from r t prev 0 s = s.
Proof.
  intros Hex Hstep. induction s as [|c s IH]; intros prev HI.
  - cbn [replace_from]. rewrite (Hex _ _ HI). reflexivity.
  - cbn [replace_from]. rewrite (Hex _ _ HI). f_equal.
    apply IH. exact (Hstep _ _ _ HI).
Qed.

Lemma single_line_tail c s : single_line (c :: s) = true -> single_line s = true.
Proof. unfold single_line; simpl; rewrite andb_true_iff; tauto. Qed.

Lemma single_line_head c s :
  single_line (c :: s) = true -> is_line_terminator c = false.
Proof.
  unfold single_line; simpl; rewrite andb_true_iff, negb_true_iff; tauto.
Qed.

Lemma single_line_flat s : single_line s = true -> forallb not_nl s = true.
Proof.
  unfold single_line. induction s as [|c s IH]; simpl; [reflexivity|].
  rewrite !andb_true_iff; intros [Hc Hs]. split; [|exact (IH Hs)].
  unfold not_nl, is_nl. destruct (cu_eqb c nl) eqn:E; [|reflexivity].
  apply cu_eqb_eq in E; subst. discriminate Hc.
Qed.

(** A rule anchored with [^] finds nothing inside a line. *)
Lemma anchored_inside_line (r : regex) (t : list piece) (s : jsstr)
    (prev : option cu) :
  inside_line prev = true -> single_line s = true ->
  replace_from (Cat Bol r) t prev 0 s = s.
Proof.
  intros Hp Hs.
  apply replace_from_id
    with (I := fun prev s => inside_line prev = true /\ single_line s = true);
    [| |split; assumption].
  - intros [p|] x [H _]; [|discriminate]. unfold exec; cbn [run].
    simpl in H. apply negb_true_iff in H. rewrite H. reflexivity.
  - intros p c x [_ H]. split; [|exact (@single_line_tail _ _ H)].
    simpl. rewrite (@single_line_head _ _ H). reflexivity.
Qed.

(** A rule of the shape [([^\n])\n...] finds nothing without a newline. *)
Lemma newline_rule_flat (r : regex) (t : list piece) (s : jsstr)
    (prev : option cu) :
  forallb not_nl s = true ->
  replace_from (Cat (Cap 1 (Cls not_nl)) (Cat (Cls is_nl) r)) t prev 0 s = s.
Proof.
  intros Hs.
  apply replace_from_id with (I := fun _ s => forallb not_nl s = true);
    [| |assumption].
  - intros p [|c [|d x]] H; unfold exec; cbn [run]; try reflexivity.
    + destruct (not_nl c); reflexivity.
    + simpl in H. apply andb_true_iff in H. destruct H as [_ H].
      apply andb_true_iff in H. destruct H as [Hd _].
      unfold not_nl in Hd. apply negb_true_iff in Hd. rewrite Hd.
      destruct (not_nl c); reflexivity.
  - intros p c x H. simpl in H. apply andb_true_iff in H. tauto.
Qed.

Lemma collapse_newlines_flat (s : jsstr) :
  forallb not_nl s = true -> collapse_newlines s = s.
Proof.
  intros Hs. unfold collapse_newlines, replace_all.
  apply replace_from_id with (I := fun _ s => forallb not_nl s = true);
    [| |assumption].
  - intros p x H. rewrite exec_newlines.
    destruct x as [|c x]; [reflexivity|]. simpl in H |- *.
    apply andb_true_iff in H. destruct H as [Hc _].
    unfold not_nl in Hc. apply negb_true_iff in Hc. rewrite Hc. reflexivity.
  - intros p c x H. simpl in H. apply andb_true_iff in H. tauto.
Qed.

(** *** The bullet rule on one line *)

Lemma skip_to_solid (s : jsstr) :
  forall prev,
    inside_line prev = true -> single_line s = true ->
    replace_from re_bullet [Lit [bullet; space]] prev (prefix_len is_space s) s
    = trimStart s.
Proof.
  induction s as [|c s IH]; intros prev Hp Hs.
  - destruct prev as [p|]; [|discriminate]. simpl in Hp.
    apply negb_true_iff in Hp.
    cbn [prefix_len replace_from]. unfold exec, re_bullet. cbn [run].
    rewrite Hp. reflexivity.
  - cbn [prefix_len trimStart]. destruct (is_space c) eqn:Sc.
    + cbn [replace_from]. apply IH; [|exact (@single_line_tail _ _ Hs)].
      simpl. rewrite (@single_line_head _ _ Hs). reflexivity.
    + apply anchored_inside_line; assumption.
Qed.

Lemma normalize_bullets_line (s : jsstr) :
  single_line s = true ->
  normalize_bullets s
  = match s with
    | c :: rest =>
        if is_marker c then bullet :: space :: trimStart rest else s
    | [] => []
    end.
Proof.
  intros Hs. destruct s as [|c rest]; [reflexivity|].
  unfold normalize_bullets, replace_all. cbn [replace_from].
  unfold exec, re_bullet. cbn [run]. fold re_bullet.
  assert (Hin : inside_line (Some c) = true).
  { simpl. rewrite (@single_line_head _ _ Hs). reflexivity. }
  pose proof (@single_line_tail _ _ Hs) as Hr.
  destruct (is_marker c).
  - rewrite rep_accept. cbn [Nat.leb Nat.add expand app].
    rewrite skip_to_solid by assumption. reflexivity.
  - f_equal. apply anchored_inside_line; assumption.
Qed.

(** *** The heading rule on one line *)

Lemma after_heading_skips_all (s : jsstr) :
  forall prev,
    replace_from re_after_heading [Ref 1; Lit [nl; nl]] prev (List.length s) s = [].
Proof.
  induction s as [|c s IH]; intros prev.
  - cbn [List.length replace_from]. unfold exec, re_after_heading. cbn [run].
    destruct prev as [p|]; [destruct (is_line_terminator p)|]; reflexivity.
  - cbn [List.length replace_from]. apply IH.
Qed.

Lemma space_after_heading_line (s : jsstr) :
  single_line s = true ->
  space_after_heading s = s \/ space_after_heading s = s ++ [nl; nl].
Proof.
  intros Hs. destruct s as [|c s]; [left; reflexivity|].
  unfold space_after_heading, replace_all. cbn [replace_from].
  destruct (@exec_after_heading_flat _ (@single_line_flat _ Hs)) as [E|E]; rewrite E.
  - left. f_equal. apply anchored_inside_line.
    + simpl. rewrite (@single_line_head _ _ Hs). reflexivity.
    + exact (@single_line_tail _ _ Hs).
  - right. cbn [List.length expand capture Nat.eqb].
    rewrite after_heading_skips_all, !app_nil_r. reflexivity.
Qed.

(** *** The paragraph rule before a trailing blank line *)

Lemma space_paragraphs_blank_end (s : jsstr) :
  forall prev,
    forallb not_nl s = true ->
    replace_from re_paragraph [Ref 1; Lit [nl; nl]; Ref 2] prev 0 (s ++ [nl; nl])
    = s ++ [nl; nl].
Proof.
  induction s as [|c s IH]; intros prev Hs; [reflexivity|].
  simpl in Hs. apply andb_true_iff in Hs. destruct Hs as [Hc Hs].
  cbn [app replace_from].
  assert (E : exec re_paragraph prev (c :: s ++ [nl; nl]) = None).
  { unfold exec, re_paragraph. cbn [run]. rewrite Hc.
    destruct s as [|d s]; [reflexivity|].
    simpl in Hs. apply andb_true_iff in Hs. destruct Hs as [Hd _].
    unfold not_nl in Hd. apply negb_true_iff in Hd.
    cbn [app]. rewrite Hd. reflexivity. }
  rewrite E. f_equal. apply IH, Hs.
Qed.

(** *** The space rule and a trailing blank line *)

Lemma prefix_len_le (q : cu -> bool) (s : jsstr) : prefix_len q s <= List.length s.
Proof. induction s as [|c s IH]; simpl; [lia|]. destruct (q c); simpl; lia. Qed.

Lemma prefix_len_all (q : cu -> bool) (s : jsstr) :
  prefix_len q s = List.length s -> forallb q s = true.
Proof.
  induction s as [|c s IH]; simpl; [reflexivity|].
  destruct (q c); [|discriminate]. intros E. apply IH. lia.
Qed.

Lemma prefix_len_app (q : cu -> bool) (s x : jsstr) :
  prefix_len q s < List.length s -> prefix_len q (s ++ x) = prefix_len q s.
Proof.
  induction s as [|c s IH]; simpl; [lia|].
  destruct (q c); [|reflexivity]. intros L. f_equal. apply IH. lia.
Qed.

Lemma collapse_from_forallb (q : cu -> bool) (s : jsstr) :
  q space = true ->
  forall prev skip,
    forallb q s = true ->
    forallb q (replace_from re_spaces [Lit [space]] prev skip s) = true.
Proof.
  intros Hq. induction s as [|c s IH]; intros prev skip Hs.
  - destruct skip; reflexivity.
  - simpl in Hs. apply andb_true_iff in Hs. destruct Hs as [Hc Hs].
    destruct skip as [|n]; cbn [replace_from]; [|apply IH, Hs].
    rewrite exec_spaces.
    destruct (2 <=? prefix_len is_space (c :: s)).
    + destruct (prefix_len is_space (c :: s)); cbn [expand app forallb];
        rewrite Hq, ?Hc, IH by assumption; reflexivity.
    + cbn [forallb]. rewrite Hc, IH by assumption. reflexivity.
Qed.

Lemma forallb_app_ws (s : jsstr) :
  forallb is_space s = true -> forallb is_space (s ++ [nl; nl]) = true.
Proof. intros H. rewrite forallb_app, H. reflexivity. Qed.

Lemma collapse_blank_end (s : jsstr) :
  forall prev skip,
    skip = 0 \/ (prefix_len is_space s = skip /\ skip < List.length s) ->
    exists core w1 w2,
      replace_from re_spaces [Lit [space]] prev skip (s ++ [nl; nl]) = core ++ w1
      /\ replace_from re_spaces [Lit [space]] prev skip s = core ++ w2
      /\ forallb is_space w1 = true /\ forallb is_space w2 = true.
Proof.
  induction s as [|c s IH]; intros prev skip Hpre.
  - destruct Hpre as [->|[_ L]]; [|simpl in L; lia].
    exists [], [space], []. repeat split.
  - destruct skip as [|n].
    + destruct (Nat.eq_dec (prefix_len is_space (c :: s)) (List.length (c :: s)))
        as [A|A].
      * apply prefix_len_all in A.
        exists [], (replace_from re_spaces [Lit [space]] prev 0 ((c :: s) ++ [nl; nl])),
          (replace_from re_spaces [Lit [space]] prev 0 (c :: s)).
        repeat split; apply collapse_from_forallb;
          auto using forallb_app_ws.
      * pose proof (prefix_len_le is_space (c :: s)) as L.
        assert (L' : prefix_len is_space (c :: s) < List.length (c :: s)) by lia.
        pose proof (@prefix_len_app is_space (c :: s) [nl; nl] L') as P.
        cbn [app] in P |- *. cbn [replace_from]. rewrite !exec_spaces, P.
        destruct (Nat.leb_spec 2 (prefix_len is_space (c :: s))) as [M|M].
        -- destruct (prefix_len is_space (c :: s)) as [|m] eqn:E; [lia|].
           simpl in E. destruct (is_space c); [|discriminate]. injection E as E.
           destruct (IH (Some c) m) as (core & w1 & w2 & E1 & E2 & W1 & W2).
           { right. split; [exact E|]. simpl in L'. lia. }
           exists (space :: core), w1, w2. cbn [expand app].
           rewrite E1, E2. repeat split; assumption.
        -- destruct (IH (Some c) 0 (or_introl eq_refl))
             as (core & w1 & w2 & E1 & E2 & W1 & W2).
           exists (c :: core), w1, w2. rewrite E1, E2. repeat split; assumption.
    + destruct Hpre as [Hpre|[E L]]; [discriminate|].
      cbn [app replace_from]. simpl in E, L.
      destruct (is_space c); [|discriminate]. injection E as E.
      apply IH. right. split; [exact E|lia].
Qed.

Lemma trimStart_ws (w : jsstr) : forallb is_space w = true -> trimStart w = [].
Proof.
  induction w as [|c w IH]; simpl; [reflexivity|].
  rewrite andb_true_iff; intros [-> H]. exact (IH H).
Qed.

Lemma trimEnd_ws (w : jsstr) : forallb is_space w = true -> trimEnd w = [].
Proof.
  induction w as [|c w IH]; [reflexivity|]. simpl forallb.
  rewrite andb_true_iff; intros [Hc H]. rewrite trimEnd_cons, (IH H), Hc.
  reflexivity.
Qed.

Lemma trimEnd_app_ws (y w : jsstr) :
  forallb is_space w = true -> trimEnd (y ++ w) = trimEnd y.
Proof.
  intros Hw. induction y as [|c y IH]; [apply trimEnd_ws, Hw|].
  cbn [app]. rewrite !trimEnd_cons, IH. reflexivity.
Qed.

Lemma trim_app_ws (x w : jsstr) :
  forallb is_space w = true -> trim (x ++ w) = trim x.
Proof.
  intros Hw. unfold trim. induction x as [|c x IH].
  - cbn [app]. rewrite (@trimStart_ws _ Hw). reflexivity.
  - cbn [app trimStart]. destruct (is_space c); [exact IH|].
    exact (@trimEnd_app_ws (c :: x) _ Hw).
Qed.

Lemma trim_collapse_blank_end (s : jsstr) :
  trim (collapse_spaces (s ++ [nl; nl])) = trim (collapse_spaces s).
Proof.
  unfold collapse_spaces, replace_all.
  destruct (@collapse_blank_end s None 0 (or_introl eq_refl))
    as (core & w1 & w2 & E1 & E2 & W1 & W2).
  rewrite E1, E2, !trim_app_ws by assumption. reflexivity.
Qed.

(** *** The pass on one line *)

Lemma trimStart_forallb (q : cu -> bool) (s : jsstr) :
  forallb q s = true -> forallb q (trimStart s) = true.
Proof.
  induction s as [|c s IH]; intros H; [reflexivity|].
  cbn [trimStart]. destruct (is_space c); [|exact H].
  simpl in H. apply andb_true_iff in H. apply IH, H.
Qed.

Lemma trimEnd_forallb (q : cu -> bool) (s : jsstr) :
  forallb q s = true -> forallb q (trimEnd s) = true.
Proof.
  induction s as [|c s IH]; intros H; [reflexivity|].
  simpl in H. apply andb_true_iff in H. destruct H as [Hc Hs].
  rewrite trimEnd_cons. specialize (IH Hs).
  destruct (trimEnd s) as [|b t].
  - destruct (is_space c); simpl; rewrite ?Hc; reflexivity.
  - cbn [forallb] in IH |- *. rewrite Hc, IH. reflexivity.
Qed.

Lemma normalize_single_line (s : jsstr) :
  single_line s = true -> single_line (normalize_bullets s) = true.
Proof.
  intros Hs. rewrite normalize_bullets_line by exact Hs.
  destruct s as [|c rest]; [reflexivity|].
  destruct (is_marker c); [|exact Hs].
  unfold single_line. cbn [forallb].
  change (forallb (fun c0 => negb (is_line_terminator c0)) (trimStart rest) = true).
  apply trimStart_forallb. exact (@single_line_tail _ _ Hs).
Qed.

Lemma format_line (s : jsstr) :
  single_line s = true ->
  formatSummaryText s = trim (collapse_spaces (normalize_bullets s)).
Proof.
  intros Hs. destruct s as [|c s]; [reflexivity|].
  change (formatSummaryText (c :: s))
    with (trim (collapse_spaces (space_paragraphs (space_after_heading
            (space_before_heading (normalize_bullets
               (collapse_newlines (c :: s)))))))).
  rewrite collapse_newlines_flat by (apply single_line_flat, Hs).
  pose proof (normalize_single_line _ Hs) as Hu.
  pose proof (@single_line_flat _ Hu) as Hf.
  set (u := normalize_bullets (c :: s)) in *.
  unfold space_before_heading, replace_all, re_before_heading.
  rewrite newline_rule_flat by exact Hf.
  destruct (@space_after_heading_line u Hu) as [E|E]; rewrite E;
    unfold space_paragraphs, replace_all.
  - unfold re_paragraph. rewrite newline_rule_flat by exact Hf. reflexivity.
  - rewrite space_paragraphs_blank_end by exact Hf.
    apply trim_collapse_blank_end.
Qed.

Lemma single_line_format (s : jsstr) :
  single_line s = true -> single_line (formatSummaryText s) = true.
Proof.
  intros Hs. rewrite format_line by exact Hs.
  apply trimEnd_forallb, trimStart_forallb.
  apply collapse_from_forallb; [reflexivity|].
  apply normalize_single_line, Hs.
Qed.

Lemma collapse_spaces_solid (c : cu) (s : jsstr) :
  is_space c = false ->
  collapse_spaces (c :: s)
  = c :: replace_from re_spaces [Lit [space]] (Some c) 0 s.
Proof.
  intros Hc. unfold collapse_spaces, replace_all. cbn [replace_from].
  rewrite exec_spaces. cbn [prefix_len]. rewrite Hc. reflexivity.
Qed.

Lemma trimEnd_solid (c : cu) (s : jsstr) :
  is_space c = false -> exists z, trimEnd (c :: s) = c :: z.
Proof.
  intros Hc. rewrite trimEnd_cons, Hc. destruct (trimEnd s); eauto.
Qed.

(** The pass leaves a line that begins with a bullet and a space, or
    with a unit that is no list marker; the bullet rule does not change
    such a line. *)
Lemma format_line_shape (s : jsstr) :
  single_line s = true -> starts_solid s = true ->
  formatSummaryText s = [bullet]
  \/ normalize_bullets (formatSummaryText s) = formatSummaryText s.
Proof.
  intros Hs Hh. pose proof (single_line_format _ Hs) as Hp.
  rewrite format_line in * by exact Hs.
  rewrite normalize_bullets_line in * by exact Hs.
  destruct s as [|c rest]; [right; reflexivity|].
  simpl in Hh. apply negb_true_iff in Hh.
  destruct (is_marker c) eqn:M.
  - pose proof (trimStart_solid rest) as Hd.
    destruct (trimStart rest) as [|d r]; [left; reflexivity|].
    simpl in Hd. apply negb_true_iff in Hd. right.
    assert (E : collapse_spaces (bullet :: space :: d :: r)
                = bullet :: space :: d
                    :: replace_from re_spaces [Lit [space]] (Some d) 0 r).
    { unfold collapse_spaces, replace_all. cbn [replace_from].
      rewrite !exec_spaces. cbn [prefix_len]. rewrite Hd. reflexivity. }
    rewrite E in *.
    destruct (@trimEnd_solid d
                (replace_from re_spaces [Lit [space]] (Some d) 0 r) Hd)
      as [z Ez].
    assert (T : trim (bullet :: space :: d
                        :: replace_from re_spaces [Lit [space]] (Some d) 0 r)
                = bullet :: space :: d :: z).
    { unfold trim.
      change (trimStart (bullet :: space :: d
                 :: replace_from re_spaces [Lit [space]] (Some d) 0 r))
        with (bullet :: space :: d
                 :: replace_from re_spaces [Lit [space]] (Some d) 0 r).
      rewrite !trimEnd_cons. rewrite trimEnd_cons in Ez. rewrite Ez.
      reflexivity. }
    rewrite T in *. rewrite normalize_bullets_line by exact Hp.
    change (is_marker bullet) with true. cbv iota.
    cbn [trimStart]. change (is_space space) with true. cbv iota.
    rewrite Hd. reflexivity.
  - right. rewrite collapse_spaces_solid in * by exact Hh.
    unfold trim in *. cbn [trimStart] in *. rewrite Hh in *.
    destruct (@trimEnd_solid c
                (replace_from re_spaces [Lit [space]] (Some c) 0 rest) Hh)
      as [z Ez].
    rewrite Ez in *. rewrite normalize_bullets_line by exact Hp.
    rewrite M. reflexivity.
Qed.

(* ================================================================== *)
(** ** The formatting pass: the claims *)

(** The rules on small inputs. *)

Example bullets_are_normalized :
  formatSummaryText (str "- a" ++ [nl] ++ str "*  b")
  = [bullet] ++ str " a" ++ [nl; bullet] ++ str " b".
Proof. reflexivity. Qed.

(** The lookahead [(?!\n\n)] makes the heading rule give back the last
    unit of a heading that is already followed by a blank line. *)
Example heading_before_blank_line :
  space_after_heading (str "# Goals" ++ [nl; nl] ++ str "x")
  = str "# Goal" ++ [nl; nl] ++ str "s" ++ [nl; nl] ++ str "x".
Proof. reflexivity. Qed.

Example heading_and_text :
  formatSummaryText (str "# Title" ++ [nl] ++ str "text") = str "# Title text".
Proof. reflexivity. Qed.

Example leading_space_hides_bullet :
  formatSummaryText (str " -x") = str "-x"
  /\ formatSummaryText (str "-x") = [bullet] ++ str " x".
Proof. split; reflexivity. Qed.

(** C4 at three one-letter lines: one application of the pass returns
    [a b], a newline and [c]; a second application returns [a b c].  The
    paragraph rule of line 79 consumes [b] with its first match and so
    leaves the second line break as it is, and the rule of line 82
    replaces the blank line just inserted by one space; on the result the
    paragraph rule matches again. *)
Theorem three_lines_need_two_passes :
  space_paragraphs three_lines
  = str "a" ++ [nl; nl] ++ str "b" ++ [nl] ++ str "c"
  /\ collapse_spaces (str "a" ++ [nl; nl] ++ str "b" ++ [nl] ++ str "c")
     = str "a b" ++ [nl] ++ str "c"
  /\ formatSummaryText three_lines = str "a b" ++ [nl] ++ str "c"
  /\ formatSummaryText (formatSummaryText three_lines) = str "a b c"
  /\ ~ pass_idempotent.
Proof.
  split; [reflexivity|]. split; [reflexivity|].
  split; [reflexivity|]. split; [reflexivity|].
  intros H. specialize (H three_lines). vm_compute in H. discriminate H.
Qed.

(** For every input the output has no two adjacent white-space units and
    neither starts nor ends with white space, so the newline-collapsing
    rule, the space-collapsing rule and the final trim leave it
    unchanged.  On an input without line terminator that does not begin
    with white space a second application of the pass changes nothing. *)
Theorem formatSummaryText_stable (s : jsstr) :
  (spaced (formatSummaryText s) = true
   /\ collapse_newlines (formatSummaryText s) = formatSummaryText s
   /\ collapse_spaces (formatSummaryText s) = formatSummaryText s
   /\ trim (formatSummaryText s) = formatSummaryText s)
  /\ (single_line s = true -> starts_solid s = true ->
      formatSummaryText (formatSummaryText s) = formatSummaryText s).
Proof.
  destruct (formatSummaryText_normal s) as [H1 [H2 H3]].
  split.
  - split; [exact H1|]. split; [apply collapse_newlines_fixed, H1|].
    split; [apply collapse_spaces_fixed, H1 | apply trim_fixed; assumption].
  - intros Hs Hh.
    destruct (@format_line_shape s Hs Hh) as [E|E].
    + rewrite E. reflexivity.
    + rewrite (format_line (formatSummaryText s))
        by (apply single_line_format, Hs).
      rewrite E, collapse_spaces_fixed by exact H1.
      apply trim_fixed; assumption.
Qed.

Lemma formatSummaryText_stable_witness :
  single_line one_line = true
  /\ starts_solid one_line = true
  /\ formatSummaryText one_line = [bullet] ++ str " first item # done"
  /\ formatSummaryText (formatSummaryText one_line) = formatSummaryText one_line.
Proof.
  split; [reflexivity|]. split; [reflexivity|]. split; [reflexivity|].
  exact (proj2 (formatSummaryText_stable one_line) eq_refl eq_refl).
Defined.

(** C5 at a run of four newlines: the first rule leaves two newlines, but
    the space-collapsing rule, whose class [\s] contains the newline,
    then replaces them by one space.  No output of the pass contains two
    consecutive newlines. *)
Theorem blank_lines_become_spaces :
  collapse_newlines four_newlines = str "a" ++ [nl; nl] ++ str "b"
  /\ formatSummaryText four_newlines = str "a b"
  /\ (forall s : jsstr, includes [nl; nl] (formatSummaryText s) = false).
Proof.
  split; [reflexivity|]. split; [reflexivity|].
  intros s. apply spaced_no_blank_line, formatSummaryText_normal.
Qed.
(* ================================================================== *)
(** * Further properties *)

(** ** The block converter: all kinds *)

(** Splits the [switch] of [processBlock] into its sixteen arms. *)
Ltac switch_arms :=
  unfold processBlock;
  repeat match goal with
         | |- context [if type_is ?b ?k then _ else _] =>
             let E := fresh "Arm" in destruct (type_is b k) eqn:E
         end.

Ltac not_nil H :=
  repeat (apply app_eq_nil in H; destruct H as [_ H]); discriminate H.

Lemma is_text_kind_arm (block : Block) (kind : string) :
  In kind text_kinds -> type_is block kind = true -> is_text_kind block = true.
Proof.
  intros Hin Ht. unfold is_text_kind. apply existsb_exists. eauto.
Qed.

Lemma type_is_unique (block : Block) (a b : string) :
  type_is block a = true -> type_is block b = true -> str a = str b.
Proof.
  unfold type_is. rewrite !jsstr_eqb_eq. congruence.
Qed.

Lemma has_text_false (block : Block) :
  has_text block = false -> rich_text (payload block) = [].
Proof.
  unfold has_text. destruct (rich_text (payload block)); [reflexivity|discriminate].
Qed.

(** X1: a block is converted to the empty fragment exactly when its kind is
    one of the ten that need text (the three headings, the two list
    items, [to_do], [toggle], [quote], [code], [callout]) and its rich
    text is empty; every other block, whatever its kind, gives text. *)
Theorem empty_fragment_iff (block : Block) (level : nat) :
  processBlock block level = []
  <-> is_text_kind block = true /\ rich_text (payload block) = [].
Proof.
  split.
  - intros H. revert H. switch_arms;
      try (destruct (has_text block) eqn:T);
      intros H; try (exfalso; not_nil H);
      (split; [|apply has_text_false; exact T]);
      (eapply is_text_kind_arm; [|eassumption]); simpl; tauto.
  - intros [Hk Hr]. unfold is_text_kind in Hk.
    apply existsb_exists in Hk. destruct Hk as [kind [Hin Ht]].
    unfold type_is in Ht. apply jsstr_eqb_eq in Ht.
    exact (@text_kind_empty block kind level Hin Ht Hr).
Qed.

Lemma ends_line_app (a x : jsstr) :
  (exists body, x = body ++ [nl]) -> exists body, a ++ x = body ++ [nl].
Proof. intros [body ->]. exists (a ++ body). apply app_assoc. Qed.

Ltac ends_line :=
  repeat (apply ends_line_app);
  first [exists (@nil cu); reflexivity | exists [nl]; reflexivity].

(** X2: a fragment that is not empty starts with the indent of its level
    and ends with a newline, so that the fragments of consecutive blocks
    never share a line. *)
Theorem fragment_ends_line (block : Block) (level : nat) :
  processBlock block level = []
  \/ exists body, processBlock block level = indent_of level ++ body ++ [nl].
Proof.
  assert (G : forall rest : jsstr,
             (exists body, rest = body ++ [nl]) ->
             exists body, indent_of level ++ rest = indent_of level ++ body ++ [nl]).
  { intros rest [body ->]. eauto. }
  unfold indent_of in *.
  switch_arms; try (destruct (has_text block));
    first [left; reflexivity | right; apply G; ends_line].
Qed.

(** X3: the level only adds the indent: the fragment at a level is the
    fragment at level 0 behind two spaces per level, and it is empty when
    the one at level 0 is. *)
Theorem fragment_indent (block : Block) (level : nat) :
  processBlock block level
  = if is_empty (processBlock block 0) then []
    else indent_of level ++ processBlock block 0.
Proof.
  unfold indent_of.
  switch_arms; try (destruct (has_text block)); cbn [repeat_str app];
    try reflexivity.
  destruct (block_text block); reflexivity.
Qed.

(** X4: only the concatenated plain text of the runs counts: two non-empty
    arrays of runs with the same concatenation give the same fragment,
    however the text is cut into runs. *)
Theorem fragment_of_text (block : Block) (rt : list RichText) (level : nat) :
  rt <> [] -> rich_text (payload block) <> [] ->
  text_of rt = block_text block ->
  processBlock (with_rich_text block rt) level = processBlock block level.
Proof.
  intros H1 H2 E.
  assert (T1 : has_text (with_rich_text block rt) = true)
    by (apply has_text_cons; exact H1).
  assert (T2 : has_text block = true) by (apply has_text_cons; exact H2).
  unfold processBlock. rewrite T1, T2.
  change (type_is (with_rich_text block rt)) with (type_is block).
  change (block_text (with_rich_text block rt)) with (text_of rt).
  rewrite E. reflexivity.
Qed.

Lemma fragment_of_text_witness :
  two_runs <> []
  /\ text_of two_runs = block_text done_to_do
  /\ processBlock (with_rich_text done_to_do two_runs) 1
     = processBlock done_to_do 1.
Proof.
  split; [discriminate|]. split; [reflexivity|].
  refine (@fragment_of_text done_to_do two_runs 1 _ _ eq_refl); discriminate.
Defined.

(** ** The recursive conversion *)

(** X5: the recursive conversion never throws, and the only calls it adds
    are fetches of block children: it writes nothing to the store. *)
Theorem processBlocks_only_fetches (fuel : nat) (w : World)
    (accessToken : jsstr) (blocks : list Block) (level : nat) :
  only_fetches (processBlocks fuel w accessToken blocks level).
Proof. apply processBlocks_quiet. Qed.

(** X6: when the first block with children has its children delivered, and
    these have none of their own, the document is the fragments of the
    blocks before it, its own fragment, the fragments of its children one
    level deeper, and then the conversion of the blocks after it; one
    fetch, for that block, has been issued in between. *)
Theorem nested_children_follow_parent (fuel : nat) (w : World)
    (accessToken : jsstr) (pre : list Block) (block : Block)
    (post results : list Block) (level : nat) (tr : list Effect) :
  flat pre = true -> has_children block = true ->
  notion_children w accessToken (id block) = HttpOk results ->
  flat results = true ->
  processBlocks (S (S fuel)) w accessToken (pre ++ block :: post) level tr
  = prepend (fragments pre level ++ processBlock block level
               ++ fragments results (S level))
      (processBlocks (S (S fuel)) w accessToken post level
         (tr ++ [GetBlockChildren (id block)])).
Proof.
  intros Hpre Hc Hf Hres.
  change (processBlocks (S (S fuel)) w accessToken (pre ++ block :: post) level tr)
    with (each_block
            (fun results => processBlocks (S fuel) w accessToken results (S level))
            w accessToken level (pre ++ block :: post) [] tr).
  rewrite each_block_flat by exact Hpre.
  cbn [each_block]. cbv zeta. rewrite Hc. cbn [app].
  unfold bind at 1. unfold try_catch, fetchChildren, bind, perform, throw, ret.
  rewrite Hf. rewrite processBlocks_flat by exact Hres.
  rewrite each_block_acc, prepend_prepend. reflexivity.
Qed.

Lemma nested_children_follow_parent_witness :
  flat [inner_paragraph] = true
  /\ processBlocks 2 (toggle_world (HttpOk [inner_paragraph])) (str "secret")
       [toggle_with_children] 0 []
     = (Value (str "**Toggle: Details**" ++ [nl; nl] ++ str "  inside" ++ [nl; nl]),
        [GetBlockChildren (str "t1")]).
Proof.
  split; [reflexivity|].
  exact (@nested_children_follow_parent 0
           (toggle_world (HttpOk [inner_paragraph])) (str "secret") []
           toggle_with_children [] [inner_paragraph] 0 []
           eq_refl eq_refl eq_refl eq_refl).
Defined.

(** ** The insert statement *)



(** ** Title resolution: the property tiers and the length of a title *)

(** A [title] property with runs decides the title whenever its text is
    not empty; when its text is empty the [Name] property and the other
    properties are not consulted, and the title comes from the blocks. *)
Theorem title_property_comes_first (pageData : Page) (t : list RichText)
    (blocks : list Block) (today : jsstr) :
  titled "title" pageData = Some t ->
  resolveTitle pageData blocks today
  = if is_empty (text_of t)
    then resolveTitle page_without_title blocks today
    else text_of t.
Proof.
  intros H. unfold resolveTitle, propertyTitle. rewrite H.
  destruct (text_of t); reflexivity.
Qed.

Lemma ellipsis40_length (s : jsstr) : List.length (ellipsis40 s) <= 43.
Proof.
  unfold ellipsis40, substring0.
  destruct (Nat.ltb_spec 40 (List.length s)) as [L|L]; [|lia].
  rewrite length_app, length_firstn.
  change (List.length (str "...")) with 3. lia.
Qed.

Lemma ellipsis40_prefix (s : jsstr) :
  firstn 40 (ellipsis40 s) = firstn 40 s.
Proof.
  unfold ellipsis40, substring0.
  destruct (Nat.ltb_spec 40 (List.length s)) as [L|L]; [|reflexivity].
  rewrite firstn_app, firstn_firstn, length_firstn.
  replace (Nat.min 40 40) with 40 by reflexivity.
  replace (40 - Nat.min 40 (List.length s)) with 0 by lia.
  cbn [firstn]. apply app_nil_r.
Qed.

(** X14: a title taken from a paragraph has at most 43 units, agrees with
    the paragraph on its first 40 units, and is the whole paragraph when
    that has at most 40. *)
Theorem paragraph_title_is_short (pageData : Page) (pre : list Block)
    (block : Block) (post : list Block) (today : jsstr) :
  propertyTitle pageData = [] ->
  forallb (fun b => negb (is_title_source b)) pre = true ->
  type block = str "paragraph" ->
  truthy (first_plain_text (rich_text (payload block))) = true ->
  let pageTitle := resolveTitle pageData (pre ++ block :: post) today in
  List.length pageTitle <= 43
  /\ firstn 40 pageTitle = firstn 40 (block_text block)
  /\ (List.length (block_text block) <= 40 -> pageTitle = block_text block).
Proof.
  intros Hp Hpre Ht Htext. cbv zeta.
  assert (E : resolveTitle pageData (pre ++ block :: post) today
              = ellipsis40 (block_text block)).
  { pose proof (truthy_first_text _ Htext) as Hne.
    pose proof (ellipsis40_nonempty Hne) as He.
    unfold resolveTitle. rewrite Hp, (contentTitle_skip _ _ Hpre).
    cbn [is_empty contentTitle]. rewrite Htext. switch_on Ht. cbn [andb].
    unfold block_text.
    destruct (ellipsis40 (text_of (rich_text (payload block))));
      [contradiction|reflexivity]. }
  rewrite E. split; [apply ellipsis40_length|].
  split; [apply ellipsis40_prefix|].
  intros L. unfold ellipsis40.
  destruct (Nat.ltb_spec 40 (List.length (block_text block))); [lia|reflexivity].
Qed.

Lemma paragraph_title_is_short_witness :
  propertyTitle page_without_title = []
  /\ List.length (resolveTitle page_without_title intro_then_goals a_date) <= 43
  /\ resolveTitle page_without_title intro_then_goals a_date = str "Intro".
Proof.
  split; [reflexivity|].
  pose proof (@paragraph_title_is_short page_without_title []
                (mk_block "paragraph" "Intro") [mk_block "heading_1" "Goals"]
                a_date eq_refl eq_refl eq_refl eq_refl) as H.
  destruct H as [H1 [_ H3]]. split; [exact H1|].
  apply H3. cbn. lia.
Defined.

(** ** The formatting pass: what it keeps *)

Lemma ink_app (a b : jsstr) : ink (a ++ b) = ink a ++ ink b.
Proof. apply filter_app. Qed.

Lemma ink_spaces (q : cu -> bool) (s : jsstr) :
  (forall c, q c = true -> is_space c = true) ->
  ink (firstn (prefix_len q s) s) = [].
Proof.
  intros Hq. induction s as [|c s IH]; [reflexivity|].
  cbn [prefix_len]. destruct (q c) eqn:E; [|reflexivity].
  cbn [firstn]. unfold ink in *. cbn [filter]. unfold solid at 1.
  rewrite (Hq _ E). exact IH.
Qed.

Lemma marked_refl (l : jsstr) : Forall2 marked l l.
Proof. induction l; constructor; [left; reflexivity|assumption]. Qed.

Section Replace.
  Variables (r : regex) (t : list piece).
  Hypothesis match_keeps :
    forall prev s len caps,
      exec r prev s = Some (len, caps) ->
      Forall2 marked (ink (firstn len s)) (ink (expand t caps)).

Lemma replace_from_keeps (s : jsstr) :
  forall prev skip,
    Forall2 marked (ink (skipn skip s)) (ink (replace_from r t prev skip s)).
Proof.
  induction s as [|c s IH]; intros prev skip.
  - destruct skip; cbn [replace_from skipn]; [|constructor].
    destruct (exec r prev []) as [[len caps]|] eqn:E; [|constructor].
    pose proof (match_keeps _ _ E) as H. rewrite firstn_nil in H. exact H.
  - destruct skip as [|n]; cbn [replace_from skipn]; [|apply IH].
    destruct (exec r prev (c :: s)) as [[[|n] caps]|] eqn:E.
    + pose proof (match_keeps _ _ E) as H. cbn [firstn] in H.
      change (c :: s) with ([] ++ [c] ++ s).
      change (c :: replace_from r t (Some c) 0 s)
        with ([c] ++ replace_from r t (Some c) 0 s).
      rewrite !ink_app. apply Forall2_app; [exact H|].
      apply Forall2_app; [apply marked_refl|apply (IH (Some c) 0)].
    + pose proof (match_keeps _ _ E) as H.
      rewrite <- (firstn_skipn (S n) (c :: s)) at 1.
      rewrite !ink_app. apply Forall2_app; [exact H|]. apply (IH (Some c) n).
    + change (c :: s) with ([c] ++ s).
      change (c :: replace_from r t (Some c) 0 s)
        with ([c] ++ replace_from r t (Some c) 0 s).
      rewrite !ink_app.
      apply Forall2_app; [apply marked_refl|apply (IH (Some c) 0)].
Qed.

Lemma replace_all_keeps (s : jsstr) :
  Forall2 marked (ink s) (ink (replace_all r t s)).
Proof. exact (replace_from_keeps s None 0). Qed.
End Replace.

Lemma Forall2_marked_eq (a b : jsstr) : a = b -> Forall2 marked a b.
Proof. intros ->. apply marked_refl. Qed.

Lemma rep_result_from (Q : option (nat * captures) -> Prop) (s0 : jsstr)
    (pos0 : nat) (p : cu -> bool) (caps : captures) (k : cont) :
  Q None ->
  (forall prev' s' pos',
      s' = skipn pos' s0 -> pos0 <= pos' -> Q (k prev' s' pos' caps)) ->
  forall s lo hi prev pos,
    s = skipn pos s0 -> pos0 <= pos ->
    Q (rep p lo hi prev s pos caps k).
Proof.
  intros QN Qk. induction s as [|c s IH]; intros lo hi prev pos E L.
  - cbn [rep]. destruct lo; auto.
  - cbn [rep]. destruct (p c && may_repeat hi).
    + destruct (@skipn_step _ _ _ _ E) as [E' _].
      assert (L' : pos0 <= S pos) by lia.
      pose proof (IH (pred lo) (option_map pred hi) (Some c) (S pos) E' L') as H.
      destruct (rep p (pred lo) (option_map pred hi) (Some c) s (S pos) caps k);
        [exact H|]. destruct lo; auto.
    + destruct lo; auto.
Qed.

Lemma marker_is_solid (c : cu) : is_marker c = true -> solid c = true.
Proof.
  unfold is_marker. rewrite !orb_true_iff, !cu_eqb_eq.
  intros [[->| ->]| ->]; reflexivity.
Qed.

Lemma newlines_keep :
  forall prev s len caps,
    exec re_newlines prev s = Some (len, caps) ->
    Forall2 marked (ink (firstn len s)) (ink (expand [Lit [nl; nl]] caps)).
Proof.
  intros prev s len caps. rewrite exec_newlines.
  destruct (3 <=? prefix_len is_nl s); [|discriminate].
  intros E; injection E as <- <-.
  rewrite ink_spaces by apply is_nl_is_space. constructor.
Qed.

Lemma spaces_keep :
  forall prev s len caps,
    exec re_spaces prev s = Some (len, caps) ->
    Forall2 marked (ink (firstn len s)) (ink (expand [Lit [space]] caps)).
Proof.
  intros prev s len caps. rewrite exec_spaces.
  destruct (2 <=? prefix_len is_space s); [|discriminate].
  intros E; injection E as <- <-.
  rewrite ink_spaces by auto. constructor.
Qed.

Lemma bullet_keeps :
  forall prev s len caps,
    exec re_bullet prev s = Some (len, caps) ->
    Forall2 marked (ink (firstn len s)) (ink (expand [Lit [bullet; space]] caps)).
Proof.
  intros prev s len caps. unfold exec, re_bullet. cbn [run].
  assert (G : rep is_space 0 None
                match s with c :: _ => Some c | [] => prev end
                (tl s) 1 [(1, firstn 1 s)] accept = Some (len, caps) ->
              match s with c :: _ => is_marker c = true | [] => False end ->
              Forall2 marked (ink (firstn len s))
                (ink (expand [Lit [bullet; space]] caps))).
  { rewrite rep_accept. cbn [Nat.leb]. intros E; injection E as <- <-.
    destruct s as [|c rest]; [contradiction|]. intros M.
    cbn [tl Nat.add firstn]. change (c :: firstn (prefix_len is_space rest) rest)
      with ([c] ++ firstn (prefix_len is_space rest) rest).
    rewrite ink_app, ink_spaces by auto. unfold ink at 1. cbn [filter].
    rewrite (marker_is_solid _ M). cbn [app].
    constructor; [right; split; [exact M|reflexivity]|constructor]. }
  destruct prev as [p|]; [destruct (is_line_terminator p); [|discriminate]|];
    (destruct s as [|c rest]; [discriminate|]);
    (destruct (is_marker c) eqn:M; [|discriminate]);
    intros E; (apply G; [exact E | first [exact M | reflexivity]]).
Qed.

Lemma paragraph_keeps :
  forall prev s len caps,
    exec re_paragraph prev s = Some (len, caps) ->
    Forall2 marked (ink (firstn len s))
      (ink (expand [Ref 1; Lit [nl; nl]; Ref 2] caps)).
Proof.
  intros prev s len caps. unfold exec, re_paragraph. cbn [run].
  destruct s as [|c [|d [|e s2]]]; try discriminate;
    destruct (not_nl c); try discriminate;
    destruct (is_nl d) eqn:D; try discriminate.
  destruct (is_para_start e); [|discriminate].
  unfold accept. intros E; injection E as <- <-.
  apply cu_eqb_eq in D. subst d.
  cbn. apply marked_refl.
Qed.

Lemma before_heading_keeps :
  forall prev s len caps,
    exec re_before_heading prev s = Some (len, caps) ->
    Forall2 marked (ink (firstn len s))
      (ink (expand [Ref 1; Lit [nl; nl]; Ref 2] caps)).
Proof.
  intros prev s len caps. unfold exec, re_before_heading, re_heading_marker.
  cbn [run].
  destruct s as [|c [|d s2]]; try discriminate;
    destruct (not_nl c); try discriminate.
  destruct (is_nl d) eqn:D; [|discriminate].
  apply cu_eqb_eq in D. subst d.
  apply (@rep_result_from
           (fun r => r = Some (len, caps) ->
                     Forall2 marked (ink (firstn len (c :: nl :: s2)))
                       (ink (expand [Ref 1; Lit [nl; nl]; Ref 2] caps)))
           (c :: nl :: s2) 2);
    [discriminate | | reflexivity | lia].
  intros prev' s' pos' E L.
  destruct s' as [|w s3]; [discriminate|].
  destruct (is_space w); [|discriminate].
  unfold accept. intros R; injection R as <- <-.
  destruct pos' as [|[|k]]; try lia.
  cbn [Nat.sub]. remember (S k) as n eqn:En.
  cbn [firstn expand capture Nat.eqb].
  change (c :: nl :: firstn n s2) with ([c] ++ [nl] ++ firstn n s2).
  rewrite !ink_app, !app_nil_r.
  change (ink [nl; nl]) with (@nil cu). change (ink [nl]) with (@nil cu).
  apply marked_refl.
Qed.

Lemma after_heading_keeps :
  forall prev s len caps,
    exec re_after_heading prev s = Some (len, caps) ->
    Forall2 marked (ink (firstn len s)) (ink (expand [Ref 1; Lit [nl; nl]] caps)).
Proof.
  intros prev s len caps. unfold exec, re_after_heading, re_heading_marker.
  cbn [run].
  pose (Q := fun r : option (nat * captures) =>
               r = Some (len, caps) ->
               Forall2 marked (ink (firstn len s))
                 (ink (expand [Ref 1; Lit [nl; nl]] caps))).
  destruct prev as [p|]; [destruct (is_line_terminator p); [|discriminate]|];
    (apply (@rep_result_from Q s 0); [discriminate | | reflexivity | lia];
     intros prev' s' pos' E L;
     destruct s' as [|w s3]; [discriminate|];
     destruct (is_space w); [|discriminate];
     destruct (@skipn_step _ _ _ _ E) as [E3 _];
     apply (@rep_result_from Q s 0); [discriminate | | exact E3 | lia];
     intros prev'' s'' pos'' E'' L'';
     match goal with
     | |- Q (match ?m with Some _ => None | None => _ end) => destruct m
     end; [discriminate|];
     unfold Q, accept; intros R; injection R as <- <-;
     rewrite Nat.sub_0_r; cbn [expand capture Nat.eqb];
     rewrite !ink_app;
     change (ink [nl; nl]) with (@nil cu); change (ink []) with (@nil cu);
     rewrite !app_nil_r; apply marked_refl).
Qed.

Lemma marked_trans (x y z : cu) : marked x y -> marked y z -> marked x z.
Proof.
  unfold marked. intros [->|[M ->]] [->|[M' ->]]; auto.
Qed.

Lemma Forall2_marked_trans (a b c : jsstr) :
  Forall2 marked a b -> Forall2 marked b c -> Forall2 marked a c.
Proof.
  intros H. revert c. induction H as [|x y a b Hxy Hab IH]; intros c Hc.
  - inversion Hc. constructor.
  - inversion Hc as [|y' z b' c' Hyz Hbc]; subst.
    constructor; [exact (marked_trans Hxy Hyz) | exact (IH _ Hbc)].
Qed.

Lemma ink_cons (c : cu) (s : jsstr) :
  ink (c :: s) = if is_space c then ink s else c :: ink s.
Proof. unfold ink. cbn [filter]. unfold solid at 1. destruct (is_space c); reflexivity. Qed.

Lemma ink_trimStart (s : jsstr) : ink (trimStart s) = ink s.
Proof.
  induction s as [|c s IH]; [reflexivity|].
  cbn [trimStart]. destruct (is_space c) eqn:E; [|reflexivity].
  rewrite ink_cons, E. exact IH.
Qed.

Lemma ink_trimEnd (s : jsstr) : ink (trimEnd s) = ink s.
Proof.
  induction s as [|c s IH]; [reflexivity|].
  rewrite trimEnd_cons, (ink_cons c s), <- IH.
  destruct (trimEnd s) as [|b t]; [|apply ink_cons].
  destruct (is_space c) eqn:E; [reflexivity|].
  rewrite ink_cons, E. reflexivity.
Qed.

Lemma ink_trim (s : jsstr) : ink (trim s) = ink s.
Proof. unfold trim. rewrite ink_trimEnd. apply ink_trimStart. Qed.

Lemma format_keeps_ink (s : jsstr) :
  Forall2 marked (ink s) (ink (formatSummaryText s)).
Proof.
  destruct s as [|c s]; [constructor|].
  change (formatSummaryText (c :: s))
    with (trim (collapse_spaces (space_paragraphs (space_after_heading
            (space_before_heading (normalize_bullets
               (collapse_newlines (c :: s)))))))).
  rewrite ink_trim.
  eapply Forall2_marked_trans; [|apply (@replace_all_keeps _ _ spaces_keep _)].
  eapply Forall2_marked_trans; [|apply (@replace_all_keeps _ _ paragraph_keeps _)].
  eapply Forall2_marked_trans; [|apply (@replace_all_keeps _ _ after_heading_keeps _)].
  eapply Forall2_marked_trans; [|apply (@replace_all_keeps _ _ before_heading_keeps _)].
  eapply Forall2_marked_trans; [|apply (@replace_all_keeps _ _ bullet_keeps _)].
  apply (@replace_all_keeps _ _ newlines_keep _).
Qed.

(** X15: the formatting pass neither drops, adds nor reorders a unit that is
    not white space; the only change to such a unit is a [-] or [*] list
    marker that becomes a bullet. *)
Theorem formatSummaryText_keeps_ink (s : jsstr) :
  Forall2 marked (ink s) (ink (formatSummaryText s)).
Proof. apply format_keeps_ink. Qed.

Lemma ink_nil_iff (s : jsstr) : ink s = [] <-> forallb is_space s = true.
Proof.
  unfold ink. induction s as [|c s IH]; [split; reflexivity|].
  cbn [filter forallb]. unfold solid at 1.
  destruct (is_space c); cbn [negb andb]; [exact IH|].
  split; discriminate.
Qed.

Lemma format_blank_iff (s : jsstr) :
  formatSummaryText s = [] <-> forallb is_space s = true.
Proof.
  pose proof (format_keeps_ink s) as K.
  pose proof (Forall2_length K) as L.
  rewrite <- ink_nil_iff. split.
  - intros E. rewrite E in L. cbn in L.
    destruct (ink s); [reflexivity|discriminate L].
  - intros E. rewrite E in L. cbn in L.
    destruct (formatSummaryText_normal s) as [_ [Hs _]].
    destruct (formatSummaryText s) as [|c t]; [reflexivity|].
    cbn [starts_solid] in Hs. apply negb_true_iff in Hs.
    rewrite ink_cons, Hs in L. discriminate L.
Qed.

(** X16: the formatting pass returns the empty string exactly for the texts
    made of white space only. *)
Theorem formatSummaryText_blank_iff (s : jsstr) :
  formatSummaryText s = [] <-> forallb is_space s = true.
Proof. apply format_blank_iff. Qed.

(* ================================================================== *)
(** ** summarize-text: the handler *)

Lemma trim_nil_iff (s : jsstr) : trim s = [] <-> forallb is_space s = true.
Proof.
  split.
  - intros E. apply ink_nil_iff. rewrite <- ink_trim, E. reflexivity.
  - intros H. unfold trim. rewrite (@trimStart_ws _ H). reflexivity.
Qed.

Lemma blank_iff (text : option jsstr) :
  blank text = true
  <-> text = None \/ exists s, text = Some s /\ forallb is_space s = true.
Proof.
  destruct text as [s|]; cbn [blank]; [|split; auto].
  rewrite orb_true_iff, Nat.eqb_eq, is_empty_true, length_zero_iff_nil,
    trim_nil_iff.
  split.
  - intros [->|H]; right; eexists; split; try reflexivity; assumption.
  - intros [H|[s' [E H]]]; [discriminate|]. injection E as <-. auto.
Qed.

Lemma summarize_not_options (req : SummarizeText.Request) :
  SummarizeText.method req <> str "OPTIONS" ->
  jsstr_eqb (SummarizeText.method req) (str "OPTIONS") = false.
Proof. apply jsstr_eqb_neq. Qed.

(** X17: a summarize request without text, or with white space only, is
    answered 500 [No text provided for summarization] and no provider is
    called. *)
Theorem blank_text_is_rejected (env : SummarizeText.Env)
    (req : SummarizeText.Request) (params : SummarizeText.Params) :
  SummarizeText.method req <> str "OPTIONS" ->
  SummarizeText.json req = SummarizeText.Json params ->
  SummarizeText.text params = None
  \/ (exists s, SummarizeText.text params = Some s /\ forallb is_space s = true) ->
  SummarizeText.serve env req
  = ({| SummarizeText.status := 500;
        SummarizeText.body :=
          SummarizeText.Failure (str "No text provided for summarization") |},
     []).
Proof.
  intros Hm Hj Hb. apply blank_iff in Hb.
  unfold SummarizeText.serve.
  rewrite (@summarize_not_options _ Hm), Hj, Hb. reflexivity.
Qed.

Lemma blank_text_is_rejected_witness :
  forallb is_space (str "   ") = true
  /\ SummarizeText.serve (summarize_env (SummarizeText.Completed a_completion))
       (summarize_request (Some (str "   ")))
     = ({| SummarizeText.status := 500;
           SummarizeText.body :=
             SummarizeText.Failure (str "No text provided for summarization") |},
        []).
Proof.
  split; [reflexivity|].
  refine (@blank_text_is_rejected _ (summarize_request (Some (str "   ")))
            (summarize_params (Some (str "   "))) _ eq_refl _);
    [discriminate | right; eexists; split; reflexivity].
Defined.

(** Splits the summarize handler into its paths. *)
Ltac summarize_paths :=
  unfold SummarizeText.serve;
  destruct (jsstr_eqb (SummarizeText.method _) (str "OPTIONS")) eqn:?Options;
  [|destruct (SummarizeText.json _) as [?bad|?params] eqn:?Json;
    [|destruct (blank (SummarizeText.text _)) eqn:?Blank;
      [|cbv zeta;
        destruct (SummarizeText.use_claude _ _) eqn:?Claude;
        [unfold SummarizeText.summarizeWithClaude;
         match goal with
         | |- context [SummarizeText.claude ?e ?p ?n] =>
             destruct (SummarizeText.claude e p n) as [?m|?m|?raw] eqn:?Done
         end
        |destruct (truthy (SummarizeText.openAIApiKey _)) eqn:?Key;
         [unfold SummarizeText.summarizeWithOpenAI;
          match goal with
          | |- context [SummarizeText.openai ?e ?s ?u ?n] =>
              destruct (SummarizeText.openai e s u n) as [?m|?m|?raw] eqn:?Done
          end
         |]]]]].

Lemma failure_nonempty (message : jsstr) :
  or_else (Some message) (str "Unknown error occurred") <> [].
Proof. destruct message; discriminate. Qed.

(** X18: the summarize handler calls at most one provider per request, and
    answers 200 (empty for the preflight, with no call; else the success
    envelope after exactly one call) or 500 with a message that is not
    empty. *)
Theorem summarize_answer (env : SummarizeText.Env)
    (req : SummarizeText.Request) (resp : SummarizeText.Response)
    (calls : list SummarizeText.Call) :
  SummarizeText.serve env req = (resp, calls) ->
  List.length calls <= 1
  /\ ((SummarizeText.status resp = 200
       /\ (SummarizeText.body resp = SummarizeText.NoBody /\ calls = []
           \/ exists summary model,
               SummarizeText.body resp = SummarizeText.Success summary model
               /\ List.length calls = 1))
      \/ (SummarizeText.status resp = 500
          /\ exists e,
              SummarizeText.body resp = SummarizeText.Failure e /\ e <> [])).
Proof.
  summarize_paths.
  all: intros E; injection E as <- <-.
  all: split; [cbn; lia|].
  all: first
         [ left; split; [reflexivity|]; left; split; reflexivity
         | left; split; [reflexivity|]; right; do 2 eexists; split; reflexivity
         | right; split; [reflexivity|]; eexists; split;
           [reflexivity | first [apply failure_nonempty | discriminate]] ].
Qed.

Lemma summarize_answer_witness :
  List.length
    (snd (SummarizeText.serve
            (summarize_env (SummarizeText.Completed a_completion))
            (summarize_request (Some a_report)))) <= 1.
Proof.
  exact (proj1 (@summarize_answer
                  (summarize_env (SummarizeText.Completed a_completion))
                  (summarize_request (Some a_report)) _ _ eq_refl)).
Defined.

(** X19: the [model] field of a success names the provider that was called:
    [claude] after a call to Claude, [openai] after a call to OpenAI. *)
Theorem provider_is_reported (env : SummarizeText.Env)
    (req : SummarizeText.Request) (summary model : jsstr)
    (calls : list SummarizeText.Call) :
  SummarizeText.serve env req
  = ({| SummarizeText.status := 200;
        SummarizeText.body := SummarizeText.Success summary model |}, calls) ->
  (model = str "claude"
   /\ exists prompt n, calls = [SummarizeText.CallClaude prompt n])
  \/ (model = str "openai"
      /\ exists system user n, calls = [SummarizeText.CallOpenAI system user n]).
Proof.
  summarize_paths.
  all: intros E; try discriminate E; injection E as <- <- <-.
  - left. split; [reflexivity|]. eauto.
  - right. split; [reflexivity|]. eauto.
Qed.

Lemma provider_is_reported_witness :
  (str "claude" = str "claude"
   /\ exists prompt n,
       snd (SummarizeText.serve
              (summarize_env (SummarizeText.Completed a_completion))
              (summarize_request (Some a_report)))
       = [SummarizeText.CallClaude prompt n])
  \/ (str "claude" = str "openai"
      /\ exists system user n,
          snd (SummarizeText.serve
                 (summarize_env (SummarizeText.Completed a_completion))
                 (summarize_request (Some a_report)))
          = [SummarizeText.CallOpenAI system user n]).
Proof.
  exact (@provider_is_reported
           (summarize_env (SummarizeText.Completed a_completion))
           (summarize_request (Some a_report)) _ _ _ eq_refl).
Defined.

(** X20: a returned summary has no two adjacent white-space units, hence no
    blank line, and no white space at either end. *)
Theorem summary_is_normalized (env : SummarizeText.Env)
    (req : SummarizeText.Request) (summary model : jsstr)
    (calls : list SummarizeText.Call) :
  SummarizeText.serve env req
  = ({| SummarizeText.status := 200;
        SummarizeText.body := SummarizeText.Success summary model |}, calls) ->
  spaced summary = true
  /\ starts_solid summary = true
  /\ ends_solid summary = true
  /\ includes [nl; nl] summary = false.
Proof.
  summarize_paths.
  all: intros E; try discriminate E; injection E as <- <- <-.
  all: destruct (formatSummaryText_normal raw) as [H1 [H2 H3]].
  all: repeat split; try assumption; apply spaced_no_blank_line, H1.
Qed.

Lemma summary_is_normalized_witness :
  formatSummaryText a_completion
  = str "## Summar y " ++ [bullet] ++ str " revenue up" ++ [nl; bullet]
      ++ str " costs down"
  /\ spaced (formatSummaryText a_completion) = true
  /\ starts_solid (formatSummaryText a_completion) = true
  /\ ends_solid (formatSummaryText a_completion) = true
  /\ includes [nl; nl] (formatSummaryText a_completion) = false.
Proof.
  split; [reflexivity|].
  exact (@summary_is_normalized
           (summarize_env (SummarizeText.Completed a_completion))
           (summarize_request (Some a_report)) _ _ _ eq_refl).
Defined.

Lemma slice0_length (n : N) (s : jsstr) :
  (N.of_nat (List.length (slice0 n s)) <= n)%N.
Proof. unfold slice0. rewrite length_firstn. lia. Qed.

Lemma slice0_prefix (n : N) (s : jsstr) :
  exists rest, s = slice0 n s ++ rest.
Proof. exists (skipn (N.to_nat n) s). symmetry. apply firstn_skipn. Qed.

Lemma slice0_slice0 (n : N) (s : jsstr) : slice0 n (slice0 n s) = slice0 n s.
Proof.
  unfold slice0. rewrite firstn_firstn. f_equal. lia.
Qed.

(** X21: what a provider receives is the fixed instructions followed by a
    prefix of the request's text of at most 100000 units, with the
    request's [maxLength] (1500 by default). *)
Theorem provider_sees_bounded_text (env : SummarizeText.Env)
    (req : SummarizeText.Request) (resp : SummarizeText.Response)
    (calls : list SummarizeText.Call) (call : SummarizeText.Call) :
  SummarizeText.serve env req = (resp, calls) ->
  In call calls ->
  exists params text sent rest,
    SummarizeText.json req = SummarizeText.Json params
    /\ SummarizeText.text params = Some text
    /\ text = sent ++ rest
    /\ (N.of_nat (List.length sent) <= 100000)%N
    /\ (call = SummarizeText.CallClaude
                 (str "Please summarize the following text. Use proper formatting with paragraphs, bullet points, and headings where appropriate. Make sure to leave proper spacing between paragraphs and after headings. Focus on the key points and main ideas:"
                    ++ [nl; nl] ++ sent)
                 (SummarizeText.default_maxLength params)
        \/ call = SummarizeText.CallOpenAI SummarizeText.openai_system
                    (str "Please summarize the following text:" ++ [nl; nl] ++ sent)
                    (SummarizeText.default_maxLength params)).
Proof.
  assert (B : forall params,
             blank (SummarizeText.text params) = false ->
             exists text, SummarizeText.text params = Some text
                          /\ or_else (SummarizeText.text params) [] = text).
  { intros params H. destruct (SummarizeText.text params) as [[|c s]|];
      try discriminate. eauto. }
  summarize_paths.
  all: intros E; injection E as <- <-.
  all: cbn [In]; try tauto.
  all: intros [<-|[]].
  all: destruct (B _ Blank) as [text [T1 T2]]; rewrite T2.
  all: destruct (slice0_prefix 100000 text) as [rest R].
  all: exists params, text, (slice0 100000 text), rest.
  all: repeat split; try assumption; try apply slice0_length; auto.
Qed.

Lemma provider_sees_bounded_text_witness :
  exists params text sent rest,
    SummarizeText.json (summarize_request (Some a_report)) = SummarizeText.Json params
    /\ SummarizeText.text params = Some text
    /\ text = sent ++ rest
    /\ (N.of_nat (List.length sent) <= 100000)%N
    /\ (SummarizeText.CallClaude (SummarizeText.claude_prompt a_report) 1500
        = SummarizeText.CallClaude
            (str "Please summarize the following text. Use proper formatting with paragraphs, bullet points, and headings where appropriate. Make sure to leave proper spacing between paragraphs and after headings. Focus on the key points and main ideas:"
               ++ [nl; nl] ++ sent)
            (SummarizeText.default_maxLength params)
        \/ SummarizeText.CallClaude (SummarizeText.claude_prompt a_report) 1500
           = SummarizeText.CallOpenAI SummarizeText.openai_system
               (str "Please summarize the following text:" ++ [nl; nl] ++ sent)
               (SummarizeText.default_maxLength params)).
Proof.
  refine (@provider_sees_bounded_text
            (summarize_env (SummarizeText.Completed a_completion))
            (summarize_request (Some a_report)) _ _
            (SummarizeText.CallClaude (SummarizeText.claude_prompt a_report) 1500)
            eq_refl _).
  left; reflexivity.
Defined.

(** Runs the summarize handler up to the choice of the provider. *)
Ltac past_validation Hm Hj Ht :=
  unfold SummarizeText.serve;
  rewrite (@summarize_not_options _ Hm), Hj, Ht; cbv zeta.

(** X22: without a Claude key every request goes to OpenAI, also one that
    asks for [claude], and the answer says [openai]; without an OpenAI
    key a request for another model than [claude] is answered 500
    [No API key available for the selected model] with no call, even when
    a Claude key is there. *)
Theorem provider_fallback_is_one_way (env : SummarizeText.Env)
    (req : SummarizeText.Request) (params : SummarizeText.Params) :
  SummarizeText.method req <> str "OPTIONS" ->
  SummarizeText.json req = SummarizeText.Json params ->
  blank (SummarizeText.text params) = false ->
  (truthy (SummarizeText.claudeApiKey env) = false ->
   truthy (SummarizeText.openAIApiKey env) = true ->
   snd (SummarizeText.serve env req)
   = [SummarizeText.CallOpenAI SummarizeText.openai_system
        (SummarizeText.openai_user (or_else (SummarizeText.text params) []))
        (SummarizeText.default_maxLength params)]
   /\ forall summary model,
        SummarizeText.body (fst (SummarizeText.serve env req))
        = SummarizeText.Success summary model ->
        model = str "openai")
  /\ (SummarizeText.default_model params <> str "claude" ->
      truthy (SummarizeText.openAIApiKey env) = false ->
      SummarizeText.serve env req
      = ({| SummarizeText.status := 500;
            SummarizeText.body :=
              SummarizeText.Failure
                (str "No API key available for the selected model") |},
         [])).
Proof.
  intros Hm Hj Ht. split.
  - intros Hc Ho. past_validation Hm Hj Ht.
    unfold SummarizeText.use_claude. rewrite Hc, andb_false_r, Ho.
    unfold SummarizeText.summarizeWithOpenAI.
    destruct (SummarizeText.openai env _ _ _); cbn [fst snd SummarizeText.body];
      (split; [reflexivity|]); intros summary model E;
      try discriminate E; injection E as _ <-; reflexivity.
  - intros Hmodel Ho. past_validation Hm Hj Ht.
    unfold SummarizeText.use_claude.
    rewrite (jsstr_eqb_neq Hmodel), Ho. reflexivity.
Qed.

Lemma provider_fallback_is_one_way_witness :
  truthy (SummarizeText.claudeApiKey
            (openai_only_env (SummarizeText.Completed a_completion))) = false
  /\ snd (SummarizeText.serve
            (openai_only_env (SummarizeText.Completed a_completion))
            (summarize_request (Some a_report)))
     = [SummarizeText.CallOpenAI SummarizeText.openai_system
          (SummarizeText.openai_user a_report) 1500].
Proof.
  split; [reflexivity|].
  refine (proj1 (proj1 (@provider_fallback_is_one_way
                          (openai_only_env (SummarizeText.Completed a_completion))
                          (summarize_request (Some a_report))
                          (summarize_params (Some a_report)) _ eq_refl eq_refl)
                   eq_refl eq_refl)).
  discriminate.
Defined.

(** X23: when Claude refuses the call, the request fails with 500
    [Claude API error: ] and the status text; the other provider is not
    tried. *)
Theorem refused_provider_is_not_replaced (env : SummarizeText.Env)
    (req : SummarizeText.Request) (params : SummarizeText.Params)
    (statusText : jsstr) :
  SummarizeText.method req <> str "OPTIONS" ->
  SummarizeText.json req = SummarizeText.Json params ->
  blank (SummarizeText.text params) = false ->
  SummarizeText.use_claude env params = true ->
  let prompt := SummarizeText.claude_prompt (or_else (SummarizeText.text params) []) in
  SummarizeText.claude env prompt (SummarizeText.default_maxLength params)
  = SummarizeText.Refused statusText ->
  SummarizeText.serve env req
  = ({| SummarizeText.status := 500;
        SummarizeText.body :=
          SummarizeText.Failure (str "Claude API error: " ++ statusText) |},
     [SummarizeText.CallClaude prompt (SummarizeText.default_maxLength params)]).
Proof.
  intros Hm Hj Ht Hc prompt Hr. past_validation Hm Hj Ht. rewrite Hc.
  unfold SummarizeText.summarizeWithClaude. fold prompt. rewrite Hr.
  reflexivity.
Qed.

Lemma refused_provider_is_not_replaced_witness :
  SummarizeText.use_claude
    (summarize_env (SummarizeText.Refused (str "Too Many Requests")))
    (summarize_params (Some a_report)) = true
  /\ SummarizeText.serve
       (summarize_env (SummarizeText.Refused (str "Too Many Requests")))
       (summarize_request (Some a_report))
     = ({| SummarizeText.status := 500;
           SummarizeText.body :=
             SummarizeText.Failure (str "Claude API error: Too Many Requests") |},
        [SummarizeText.CallClaude (SummarizeText.claude_prompt a_report) 1500]).
Proof.
  split; [reflexivity|].
  refine (@refused_provider_is_not_replaced
            (summarize_env (SummarizeText.Refused (str "Too Many Requests")))
            (summarize_request (Some a_report)) (summarize_params (Some a_report))
            (str "Too Many Requests") _ eq_refl eq_refl eq_refl eq_refl).
  discriminate.
Defined.

(** X24: a completion is always answered as a success, whose summary is
    empty exactly when the completion was white space only, and keeps
    the completion's other units in order. *)
Theorem empty_summary_iff_blank_completion (env : SummarizeText.Env)
    (req : SummarizeText.Request) (params : SummarizeText.Params)
    (raw : jsstr) :
  SummarizeText.method req <> str "OPTIONS" ->
  SummarizeText.json req = SummarizeText.Json params ->
  blank (SummarizeText.text params) = false ->
  SummarizeText.use_claude env params = true ->
  SummarizeText.claude env
    (SummarizeText.claude_prompt (or_else (SummarizeText.text params) []))
    (SummarizeText.default_maxLength params)
  = SummarizeText.Completed raw ->
  exists summary,
    fst (SummarizeText.serve env req)
    = {| SummarizeText.status := 200;
         SummarizeText.body := SummarizeText.Success summary (str "claude") |}
    /\ (summary = [] <-> forallb is_space raw = true)
    /\ Forall2 marked (ink raw) (ink summary).
Proof.
  intros Hm Hj Ht Hc Hr. exists (formatSummaryText raw).
  split; [|split; [apply format_blank_iff
                  |apply format_keeps_ink]].
  past_validation Hm Hj Ht. rewrite Hc.
  unfold SummarizeText.summarizeWithClaude. rewrite Hr. reflexivity.
Qed.

Lemma empty_summary_iff_blank_completion_witness :
  forallb is_space [nl; space; nl] = true
  /\ exists summary,
      fst (SummarizeText.serve
             (summarize_env (SummarizeText.Completed [nl; space; nl]))
             (summarize_request (Some a_report)))
      = {| SummarizeText.status := 200;
           SummarizeText.body := SummarizeText.Success summary (str "claude") |}
      /\ (summary = [] <-> forallb is_space [nl; space; nl] = true)
      /\ Forall2 marked (ink [nl; space; nl]) (ink summary).
Proof.
  split; [reflexivity|].
  refine (@empty_summary_iff_blank_completion
            (summarize_env (SummarizeText.Completed [nl; space; nl]))
            (summarize_request (Some a_report)) (summarize_params (Some a_report))
            [nl; space; nl] _ eq_refl eq_refl eq_refl eq_refl).
  discriminate.
Defined.

(* ================================================================== *)
(** ** The client of summarize-text *)

(** The client refuses a blank text itself: no request is sent and no
    toast is shown. *)
Theorem client_rejects_blank_text (invoke : SummarizeClient.InvokeBody -> SummarizeClient.Invocation)
    (opts : SummarizeClient.Options) :
  SummarizeClient.text opts = None
  \/ (exists s, SummarizeClient.text opts = Some s /\ forallb is_space s = true) ->
  SummarizeClient.summarizeText invoke opts
  = (SummarizeClient.Threw (str "No text provided for summarization"), []).
Proof.
  intros H. apply blank_iff in H. unfold SummarizeClient.summarizeText.
  rewrite H. reflexivity.
Qed.

(** Splits [summarizeText] into its paths. *)
Ltac client_paths :=
  unfold SummarizeClient.summarizeText;
  destruct (blank (SummarizeClient.text _)) eqn:?Blank;
  [|cbv zeta;
    match goal with
    | |- context [match ?i ?b with SummarizeClient.InvokeRejected _ => _ | _ => _ end] =>
        destruct (i b) as [?m|[[[[|?c ?s]|]]|] [?m|]] eqn:?Inv
    end].

(** X25: a failure of the client is either the refusal of a blank text, with
    nothing shown, or a message that starts with
    [Failed to summarize text: ] and is shown in an error toast as the
    last event. *)
Theorem client_failures_are_wrapped (invoke : SummarizeClient.InvokeBody -> SummarizeClient.Invocation)
    (opts : SummarizeClient.Options) (message : jsstr)
    (events : list SummarizeClient.Ui) :
  SummarizeClient.summarizeText invoke opts = (SummarizeClient.Threw message, events) ->
  (message = str "No text provided for summarization" /\ events = [])
  \/ (starts_with (str "Failed to summarize text: ") message = true
      /\ exists before, events = before ++ [SummarizeClient.ToastError message]).
Proof.
  client_paths.
  all: intros E; try discriminate E; injection E as <- <-.
  all: first
         [ left; split; reflexivity
         | right; split; [unfold SummarizeClient.wrapped; apply starts_with_app|];
           match goal with
           | |- exists before, ?l = _ => exists (removelast l); reflexivity
           end ].
Qed.

Lemma client_failures_are_wrapped_witness :
  starts_with (str "Failed to summarize text: ")
    (str "Failed to summarize text: Edge Function returned a non-2xx status code")
  = true
  /\ exists before,
      snd (SummarizeClient.summarizeText failing_transport client_options)
      = before
          ++ [SummarizeClient.ToastError
                (str "Failed to summarize text: Edge Function returned a non-2xx status code")].
Proof.
  pose proof (@client_failures_are_wrapped failing_transport client_options
                _ _ eq_refl) as [[H _]|H]; [discriminate H|exact H].
Defined.

(** X26: the client returns only a summary that is not empty, delivered by
    the one request it sent, whose text has at most 100000 units;
    the events are the progress toast, the request, the dismissal and the
    success toast. *)
Theorem client_returns_a_summary (invoke : SummarizeClient.InvokeBody -> SummarizeClient.Invocation)
    (opts : SummarizeClient.Options) (summary : jsstr)
    (events : list SummarizeClient.Ui) :
  SummarizeClient.summarizeText invoke opts
  = (SummarizeClient.Returned summary, events) ->
  summary <> []
  /\ exists body info done,
      events = [SummarizeClient.ToastInfo info; SummarizeClient.Invoke body;
                SummarizeClient.ToastDismiss; SummarizeClient.ToastSuccess done]
      /\ invoke body
         = SummarizeClient.InvokeResolved
             (Some {| SummarizeClient.summary := Some summary |}) None
      /\ (N.of_nat (List.length (SummarizeClient.body_text body)) <= 100000)%N.
Proof.
  client_paths.
  all: intros E; try discriminate E; injection E as <- <-.
  split; [discriminate|]. do 3 eexists.
  split; [reflexivity|]. split; [exact Inv|]. apply slice0_length.
Qed.

Lemma client_returns_a_summary_witness :
  formatSummaryText a_completion <> []
  /\ exists body info done,
      snd (SummarizeClient.summarizeText
             (delivering (summarize_env (SummarizeText.Completed a_completion)))
             client_options)
      = [SummarizeClient.ToastInfo info; SummarizeClient.Invoke body;
         SummarizeClient.ToastDismiss; SummarizeClient.ToastSuccess done]
      /\ delivering (summarize_env (SummarizeText.Completed a_completion)) body
         = SummarizeClient.InvokeResolved
             (Some {| SummarizeClient.summary := Some (formatSummaryText a_completion) |})
             None
      /\ (N.of_nat (List.length (SummarizeClient.body_text body)) <= 100000)%N.
Proof.
  exact (@client_returns_a_summary
           (delivering (summarize_env (SummarizeText.Completed a_completion)))
           client_options _ _ eq_refl).
Defined.

(** Once the request is sent, the progress toast is dismissed exactly
    when the call resolves: a rejected call leaves it on screen. *)
Theorem client_dismisses_unless_rejected (invoke : SummarizeClient.InvokeBody -> SummarizeClient.Invocation)
    (opts : SummarizeClient.Options) (body : SummarizeClient.InvokeBody) :
  In (SummarizeClient.Invoke body) (snd (SummarizeClient.summarizeText invoke opts)) ->
  (In SummarizeClient.ToastDismiss (snd (SummarizeClient.summarizeText invoke opts))
   <-> forall message, invoke body <> SummarizeClient.InvokeRejected message).
Proof.
  client_paths.
  all: cbn [snd app In].
  all: intros Sent; split; intros H.
  all: repeat match goal with
              | D : _ \/ _ |- _ => destruct D as [D|D]
              end.
  all: try discriminate; try contradiction.
  all: try (injection Sent as <-).
  all: try (intros message; rewrite Inv; discriminate).
  all: try (exfalso; apply (H m); exact Inv).
  all: auto 10.
Qed.

(** X27: client over handler: when the handler's success is delivered to the
    client, the client returns that summary, unless it is empty, in which
    case the client fails with [Received empty response from the
    summarization service]; the handler's own cut of the text at 100000
    units changes nothing, and the summary is normalized. *)
Theorem client_over_handler (env : SummarizeText.Env)
    (invoke : SummarizeClient.InvokeBody -> SummarizeClient.Invocation)
    (opts : SummarizeClient.Options) (body : SummarizeClient.InvokeBody)
    (summary model : jsstr) (calls : list SummarizeText.Call) :
  In (SummarizeClient.Invoke body) (snd (SummarizeClient.summarizeText invoke opts)) ->
  SummarizeText.serve env (SummarizeClient.to_request body)
  = ({| SummarizeText.status := 200;
        SummarizeText.body := SummarizeText.Success summary model |}, calls) ->
  invoke body
  = SummarizeClient.InvokeResolved
      (Some {| SummarizeClient.summary := Some summary |}) None ->
  fst (SummarizeClient.summarizeText invoke opts)
  = (if is_empty summary
     then SummarizeClient.Threw
            (str "Failed to summarize text: Received empty response from the summarization service")
     else SummarizeClient.Returned summary)
  /\ slice0 100000 (SummarizeClient.body_text body) = SummarizeClient.body_text body
  /\ spaced summary = true.
Proof.
  intros Sent Served Delivered.
  split; [|split].
  - revert Sent Delivered. client_paths.
    all: cbn [snd fst app In].
    all: intros Sent; repeat match goal with
                             | D : _ \/ _ |- _ => destruct D as [D|D]
                             end.
    all: try discriminate; try contradiction.
    all: injection Sent as <-.
    all: rewrite Inv; intros D; try discriminate D.
    all: injection D as <-; reflexivity.
  - revert Sent. client_paths.
    all: cbn [snd app In].
    all: intros Sent; repeat match goal with
                             | D : _ \/ _ |- _ => destruct D as [D|D]
                             end.
    all: try discriminate; try contradiction.
    all: injection Sent as <-; apply slice0_slice0.
  - revert Served. summarize_paths.
    all: intros E; try discriminate E; injection E as <- <- <-.
    all: apply formatSummaryText_normal.
Qed.

Lemma client_over_handler_witness :
  fst (SummarizeClient.summarizeText
         (delivering (summarize_env (SummarizeText.Completed [nl; space; nl])))
         client_options)
  = SummarizeClient.Threw
      (str "Failed to summarize text: Received empty response from the summarization service")
  /\ spaced (@nil cu) = true.
Proof.
  pose proof (@client_over_handler
                (summarize_env (SummarizeText.Completed [nl; space; nl]))
                (delivering (summarize_env (SummarizeText.Completed [nl; space; nl])))
                client_options
                {| SummarizeClient.body_text := a_report;
                   SummarizeClient.body_model := str "claude";
                   SummarizeClient.body_maxLength := 1500;
                   SummarizeClient.body_title := None;
                   SummarizeClient.body_projectId := None |}
                [] (str "claude") _
                (or_intror (or_introl eq_refl)) eq_refl eq_refl) as [H1 [_ H3]].
  split; [exact H1|exact H3].
Defined.

(* ================================================================== *)
(** ** The batch import of the Notion page *)

Lemma listed_iff (x : jsstr) (l : list jsstr) :
  BatchImport.listed x l = true <-> In x l.
Proof.
  unfold BatchImport.listed. rewrite existsb_exists. split.
  - intros [y [Hin E]]. apply jsstr_eqb_eq in E. subst. exact Hin.
  - intros Hin. exists x. split; [exact Hin|apply jsstr_eqb_refl].
Qed.

Lemma mergeImported_cons (prev : list jsstr) (x : jsstr) (ids : list jsstr) :
  BatchImport.mergeImported prev (x :: ids)
  = BatchImport.mergeImported
      (if BatchImport.listed x prev then prev else prev ++ [x]) ids.
Proof. reflexivity. Qed.

Lemma mergeImported_prefix (ids prev : list jsstr) :
  exists added, BatchImport.mergeImported prev ids = prev ++ added.
Proof.
  revert prev. induction ids as [|x ids IH]; intros prev.
  - exists []. cbn. rewrite app_nil_r. reflexivity.
  - rewrite mergeImported_cons. destruct (BatchImport.listed x prev).
    + apply IH.
    + destruct (IH (prev ++ [x])) as [added E]. exists (x :: added).
      rewrite E, <- app_assoc. reflexivity.
Qed.

Lemma mergeImported_In (ids prev : list jsstr) (y : jsstr) :
  In y (BatchImport.mergeImported prev ids) <-> In y prev \/ In y ids.
Proof.
  revert prev. induction ids as [|x ids IH]; intros prev.
  - cbn. tauto.
  - rewrite mergeImported_cons, IH. cbn [In].
    destruct (BatchImport.listed x prev) eqn:L.
    + apply listed_iff in L. split; [tauto|].
      intros [H|[<-|H]]; auto.
    + rewrite in_app_iff. cbn [In]. tauto.
Qed.

Lemma mergeImported_NoDup (ids prev : list jsstr) :
  NoDup prev -> NoDup (BatchImport.mergeImported prev ids).
Proof.
  revert prev. induction ids as [|x ids IH]; intros prev H; [exact H|].
  rewrite mergeImported_cons. apply IH.
  destruct (BatchImport.listed x prev) eqn:L; [exact H|].
  apply NoDup_app; [exact H|constructor; [intros []|constructor]|].
  intros y Hy [<-|[]]. apply listed_iff in Hy. congruence.
Qed.

Lemma mergeImported_known (ids prev : list jsstr) :
  (forall x, In x ids -> In x prev) -> BatchImport.mergeImported prev ids = prev.
Proof.
  revert prev. induction ids as [|x ids IH]; intros prev H; [reflexivity|].
  rewrite mergeImported_cons.
  assert (L : BatchImport.listed x prev = true)
    by (apply listed_iff, H; left; reflexivity).
  rewrite L. apply IH. intros y Hy. apply H. right. exact Hy.
Qed.

(** X28: the update of the recently imported pages keeps the former list as
    a prefix, holds exactly the former and the new identifiers, adds no
    duplicate, and changes nothing when the same identifiers are merged
    again. *)
Theorem mergeImported_spec (prev ids : list jsstr) :
  (exists added, BatchImport.mergeImported prev ids = prev ++ added)
  /\ (forall y, In y (BatchImport.mergeImported prev ids) <-> In y prev \/ In y ids)
  /\ (NoDup prev -> NoDup (BatchImport.mergeImported prev ids))
  /\ BatchImport.mergeImported (BatchImport.mergeImported prev ids) ids
     = BatchImport.mergeImported prev ids.
Proof.
  split; [apply mergeImported_prefix|].
  split; [intros y; apply mergeImported_In|].
  split; [apply mergeImported_NoDup|].
  apply mergeImported_known. intros x Hx. apply mergeImported_In. auto.
Qed.

Lemma mergeImported_spec_witness :
  NoDup [str "p1"; str "p2"]
  /\ BatchImport.mergeImported [str "p1"; str "p2"] [str "p2"; str "p3"; str "p3"]
     = [str "p1"; str "p2"; str "p3"]
  /\ NoDup (BatchImport.mergeImported [str "p1"; str "p2"]
              [str "p2"; str "p3"; str "p3"]).
Proof.
  assert (N : NoDup [str "p1"; str "p2"]).
  { repeat constructor; simpl; intuition discriminate. }
  split; [exact N|]. split; [reflexivity|].
  exact (proj1 (proj2 (proj2 (@mergeImported_spec [str "p1"; str "p2"]
                                [str "p2"; str "p3"; str "p3"]))) N).
Defined.

(** X29: the body that the batch import sends has [pageIds] and no
    [pageId]: the parameter validation of the import handler (lines 16-20)
    throws the missing-parameters message for it before any call,
    whatever the pages, and the [catch] block turns that message into the
    400 envelope. *)
Theorem batch_request_is_rejected (b : BatchImport.Body) (tr : list Effect) :
  required_parameters (batch_request b) tr
  = (Thrown (str "Missing required parameters: userId, pageId, and projectId"),
     tr)
  /\ failure_response
       (str "Missing required parameters: userId, pageId, and projectId")
     = {| status := 400;
          response_body :=
            FailureBody
              (str "Missing required parameters: userId, pageId, and projectId") |}.
Proof.
  split; [|reflexivity].
  unfold required_parameters, batch_request. cbn [json userId pageId projectId truthy].
  rewrite andb_false_r. reflexivity.
Qed.

(** X30: a batch import either stops at a guard with one error toast, or
    raises the importing flag, sends exactly one request with the user,
    the selected project and all the page identifiers, and lowers the
    flag as its last event, whatever the call returned. *)
Theorem batch_import_sends_one_request (selectedProject user : option jsstr)
    (userProjects : list BatchImport.Project) (recentlyImported : list jsstr)
    (invoke : BatchImport.Body -> BatchImport.Invocation)
    (pageIds : list jsstr) :
  let events :=
    BatchImport.handleBatchImport selectedProject user userProjects
      recentlyImported invoke pageIds in
  (exists message, events = [BatchImport.ToastError message])
  \/ (exists project id middle,
        selectedProject = Some project /\ project <> [] /\ user = Some id
        /\ pageIds <> []
        /\ events
           = [BatchImport.SetIsBatchImporting true;
              BatchImport.Invoke
                {| BatchImport.userId := id; BatchImport.pageIds := pageIds;
                   BatchImport.projectId := project |}]
               ++ middle ++ [BatchImport.SetIsBatchImporting false]
        /\ (forall e, In e middle ->
            match e with
            | BatchImport.Invoke _ | BatchImport.SetIsBatchImporting _ => False
            | _ => True
            end)).
Proof.
  cbv zeta. unfold BatchImport.handleBatchImport.
  destruct selectedProject as [[|c project]|]; cbn [truthy negb]; eauto.
  destruct pageIds as [|p pageIds]; cbn [List.length Nat.eqb]; eauto.
  destruct user as [id|]; eauto.
  right. exists (c :: project), id.
  cbn [or_else].
  match goal with
  | |- context [match ?i ?b with BatchImport.InvokeRejected _ => _ | _ => _ end] =>
      destruct (i b) as [m|[[[results|] count]|] [m|]]
  end.
  all: eexists; repeat split; try discriminate.
  all: cbn [In]; intros e H; repeat (destruct H as [<-|H]); try exact I;
    try contradiction.
Qed.
